(** * BufferedLineReader: a shallow embedding of [buffered_line_reader.py]

    The development follows the Python class [BufferedLineReader]:
    the Python values and library calls the class relies on, the codecs
    behind [bytes.decode], format detection and construction, the chunk
    sources (compressed and buffered-threaded), the decoder/line-splitter,
    the reader facade with its statistics, and then the properties. *)

From Stdlib Require Import ZArith String Ascii List Bool Lia QArith Qround.
Import ListNotations.

Local Open Scope Z_scope.

(** ** Python values *)

(** [bytes] objects are lists of octets, [str] objects lists of code points. *)
Definition bytes := list Z.
Definition str := list Z.

(** The line terminator ['\n'] and the replacement character U+FFFD. *)
Definition NL : Z := 10.
Definition U_FFFD : Z := 65533.

(** Exceptions (all of them subclasses of Python's [Exception]). *)
Inductive exn : Type :=
| ValueError (msg : string)
| TypeError (msg : string)
| AttributeError (msg : string)
| UnicodeDecodeError (codec : string) (reason : string)
| OSError (errno : Z)
| EOFError (msg : string)
| ZeroDivisionError (msg : string).

(** The result of a call that may raise. *)
Inductive result (A : Type) : Type :=
| Ok (a : A)
| Raise (e : exn).
Arguments Ok {A} a.
Arguments Raise {A} e.

(** The value of an attribute that the code inspects with [isinstance(_, str)]
    or [in]: a string, or something that is not one (a file descriptor
    number, as [os.fdopen] gives for [name], or [GzipFile.mode]). *)
Inductive pyval : Type :=
| PStr (s : string)
| PInt (n : Z).

(** What [read] hands back: [bytes] from a binary stream, [str] from a text
    stream. *)
Inductive chunk : Type :=
| Bytes (b : bytes)
| Text (s : str).

(** [len(chunk)] and [not chunk]. *)
Definition chunk_len (c : chunk) : Z :=
  match c with
  | Bytes b => Z.of_nat (length b)
  | Text s => Z.of_nat (length s)
  end.

Definition chunk_is_empty (c : chunk) : bool :=
  match c with
  | Bytes [] => true
  | Text [] => true
  | _ => false
  end.

(** [s.endswith(suffix)] *)
Definition endswith (s suffix : string) : bool :=
  let n := String.length s in
  let m := String.length suffix in
  (m <=? n)%nat && String.eqb (substring (n - m) m s) suffix.

(** [c in s] for a one-character [c]. *)
Fixpoint str_contains (c : ascii) (s : string) : bool :=
  match s with
  | EmptyString => false
  | String a s' => Ascii.eqb a c || str_contains c s'
  end.

(** The last character of a string, used to tell the suffixes apart. *)
Fixpoint last_char (s : string) : option ascii :=
  match s with
  | EmptyString => None
  | String c EmptyString => Some c
  | String _ s' => last_char s'
  end.

(** ** File objects

    A file object is modelled by the attributes the reader looks at
    ([name], [mode], [closed]; each may be absent, as [name] and [mode] are on
    [io.BytesIO] and [io.StringIO]), its unread content, and an optional
    fault: [Some (k, e)] makes the read after [k] further successful reads
    raise [e]. *)
Record pyfile : Type := mkFile {
  fo_name : option pyval;
  fo_mode : option pyval;
  fo_closed : option bool;
  fo_data : chunk;
  fo_fault : option (nat * exn);
  fo_close_raises : option exn
}.

(** The first [n] items of a list and the rest. *)
Fixpoint split_at {A : Type} (n : Z) (l : list A) : list A * list A :=
  match l with
  | [] => ([], [])
  | x :: t =>
    if n <=? 0 then ([], l)
    else let '(hd, tl) := split_at (n - 1) t in (x :: hd, tl)
  end.

Definition take_prefix {A : Type} (n : Z) (l : list A) : list A * list A :=
  if n <? 0 then (l, []) else split_at n l.

Definition set_data (f : pyfile) (d : chunk) (flt : option (nat * exn)) : pyfile :=
  mkFile (fo_name f) (fo_mode f) (fo_closed f) d flt (fo_close_raises f).

(** [f.read(n)]: at most [n] items of the unread content ([n < 0]: all of
    it); a closed file raises [ValueError]; a pending fault raises.  This is
    what every stream does for [n = -1] and for the counts that fit in
    memory; outside these sizes streams differ ([io.BytesIO] reads
    everything for any negative [n], files from [open] refuse [n < -1]) and
    the content is taken as for [io.BytesIO], whose message the closed-file
    error bears. *)
Definition fo_read (n : Z) (f : pyfile) : result chunk * pyfile :=
  match fo_closed f with
  | Some true => (Raise (ValueError "I/O operation on closed file."), f)
  | _ =>
    match fo_fault f with
    | Some (O, e) => (Raise e, f)
    | flt =>
      let flt' := match flt with
                  | Some (S k, e) => Some (k, e)
                  | other => other
                  end in
      match fo_data f with
      | Bytes b => let '(hd, tl) := take_prefix n b in
                   (Ok (Bytes hd), set_data f (Bytes tl) flt')
      | Text s => let '(hd, tl) := take_prefix n s in
                  (Ok (Text hd), set_data f (Text tl) flt')
      end
    end
  end.

(** [f.close()] of the streams of [io]: the object is marked closed (when it
    has the attribute) and the call may still raise, as a failing flush or
    [close(2)] does.  [AnyObject] below takes the [close()] of other classes
    as it comes. *)
Definition fo_close (f : pyfile) : result unit * pyfile :=
  let f' := mkFile (fo_name f) (fo_mode f)
                   (match fo_closed f with Some _ => Some true | None => None end)
                   (fo_data f) (fo_fault f) (fo_close_raises f) in
  match fo_close_raises f with
  | Some e => (Raise e, f')
  | None => (Ok tt, f')
  end.

(** ** Codecs: [chunk.decode(encoding, errors=errors)]

    Three codecs and three error handlers are modelled; what is proved of
    decoding is proved of these. *)

Inductive codec : Type := utf_8 | latin_1 | ascii_codec.
Inductive error_policy : Type := strict | replace | ignore.

Module Utf8.

(** One step of CPython's UTF-8 decoder at the head of the input: either a
    code point made of [n] octets, or an error spanning [n] octets. *)
Inductive scan : Type :=
| Decoded (cp : Z) (n : nat)
| Invalid (n : nat) (reason : string).

Definition is_continuation (b : Z) : bool := Z.land b 192 =? 128.

Definition unexpected_end (s : bytes) : scan :=
  Invalid (length s) "unexpected end of data".
Definition bad_start : scan := Invalid 1 "invalid start byte".
Definition bad_continuation (n : nat) : scan :=
  Invalid n "invalid continuation byte".

Definition scan_head (s : bytes) : scan :=
  match s with
  | [] => Invalid 0 "empty"
  | ch :: t =>
    if ch <? 128 then Decoded ch 1
    else if ch <? 224 then
      if ch <? 194 then bad_start
      else match t with
           | [] => unexpected_end s
           | ch2 :: _ =>
             if is_continuation ch2
             then Decoded (Z.lor (Z.shiftl (Z.land ch 31) 6) (Z.land ch2 63)) 2
             else bad_continuation 1
           end
    else if ch <? 240 then
      match t with
      | [] => unexpected_end s
      | ch2 :: t2 =>
        if negb (is_continuation ch2)
           || (if ch2 <? 160 then ch =? 224 else ch =? 237)
        then bad_continuation 1
        else match t2 with
             | [] => unexpected_end s
             | ch3 :: _ =>
               if is_continuation ch3
               then Decoded (Z.lor (Z.shiftl (Z.land ch 15) 12)
                               (Z.lor (Z.shiftl (Z.land ch2 63) 6) (Z.land ch3 63))) 3
               else bad_continuation 2
             end
      end
    else if ch <? 245 then
      match t with
      | [] => unexpected_end s
      | ch2 :: t2 =>
        if negb (is_continuation ch2)
           || (if ch2 <? 144 then ch =? 240 else ch =? 244)
        then bad_continuation 1
        else match t2 with
             | [] => unexpected_end s
             | ch3 :: t3 =>
               if negb (is_continuation ch3) then bad_continuation 2
               else match t3 with
                    | [] => unexpected_end s
                    | ch4 :: _ =>
                      if is_continuation ch4
                      then Decoded
                             (Z.lor (Z.shiftl (Z.land ch 7) 18)
                                (Z.lor (Z.shiftl (Z.land ch2 63) 12)
                                   (Z.lor (Z.shiftl (Z.land ch3 63) 6)
                                      (Z.land ch4 63)))) 4
                      else bad_continuation 3
                    end
             end
      end
    else bad_start
  end.

(** The decoding loop; every step consumes at least one octet, so
    [length s] steps are enough. *)
Fixpoint decode_loop (fuel : nat) (errors : error_policy) (s : bytes) : result str :=
  match fuel with
  | O => Ok []
  | S fuel' =>
    match s with
    | [] => Ok []
    | _ =>
      match scan_head s with
      | Decoded cp n =>
        match decode_loop fuel' errors (skipn n s) with
        | Ok t => Ok (cp :: t)
        | Raise e => Raise e
        end
      | Invalid n reason =>
        match errors with
        | strict => Raise (UnicodeDecodeError "utf-8" reason)
        | replace =>
          match decode_loop fuel' errors (skipn n s) with
          | Ok t => Ok (U_FFFD :: t)
          | Raise e => Raise e
          end
        | ignore => decode_loop fuel' errors (skipn n s)
        end
      end
    end
  end.

Definition decode (errors : error_policy) (s : bytes) : result str :=
  decode_loop (length s) errors s.

End Utf8.

(** [latin-1] maps every octet to the code point of the same number. *)
Definition latin1_decode (s : bytes) : result str := Ok s.

(** [ascii] accepts the octets below 128. *)
Fixpoint ascii_decode (errors : error_policy) (s : bytes) : result str :=
  match s with
  | [] => Ok []
  | b :: t =>
    if b <? 128 then
      match ascii_decode errors t with
      | Ok r => Ok (b :: r)
      | Raise e => Raise e
      end
    else
      match errors with
      | strict => Raise (UnicodeDecodeError "ascii" "ordinal not in range(128)")
      | replace =>
        match ascii_decode errors t with
        | Ok r => Ok (U_FFFD :: r)
        | Raise e => Raise e
        end
      | ignore => ascii_decode errors t
      end
  end.

Definition bytes_decode (enc : codec) (errors : error_policy) (s : bytes) : result str :=
  match enc with
  | utf_8 => Utf8.decode errors s
  | latin_1 => latin1_decode s
  | ascii_codec => ascii_decode errors s
  end.

(** [chunk.decode(...)]: a [str] has no [decode] method. *)
Definition chunk_decode (enc : codec) (errors : error_policy) (c : chunk) : result str :=
  match c with
  | Bytes b => bytes_decode enc errors b
  | Text _ => Raise (AttributeError "'str' object has no attribute 'decode'")
  end.

(** ** The reader object *)

Inductive compression : Type :=
| COMPRESSION_NONE
| COMPRESSION_GZIP
| COMPRESSION_BZIP2
| COMPRESSION_XZ
| COMPRESSION_LZMA.

Definition compression_eqb (a b : compression) : bool :=
  match a, b with
  | COMPRESSION_NONE, COMPRESSION_NONE
  | COMPRESSION_GZIP, COMPRESSION_GZIP
  | COMPRESSION_BZIP2, COMPRESSION_BZIP2
  | COMPRESSION_XZ, COMPRESSION_XZ
  | COMPRESSION_LZMA, COMPRESSION_LZMA => true
  | _, _ => false
  end.

(** [dict.get(key, default)] on a dictionary keyed by compression type. *)
Fixpoint dict_get {V : Type} (d : list (compression * V)) (k : compression) (default : V) : V :=
  match d with
  | [] => default
  | (k', v) :: d' => if compression_eqb k' k then v else dict_get d' k default
  end.

Definition DEFAULT_CHUNK_SIZES : list (compression * Z) :=
  [ (COMPRESSION_NONE, 128 * 1024 * 1024);
    (COMPRESSION_GZIP, 32 * 1024 * 1024);
    (COMPRESSION_BZIP2, 16 * 1024 * 1024);
    (COMPRESSION_XZ, 32 * 1024 * 1024);
    (COMPRESSION_LZMA, 32 * 1024 * 1024) ].

(** The constructor's first argument: a path string or a file object. *)
Inductive source : Type :=
| Path (p : string)
| FileObj (f : pyfile).

Record reader : Type := mkReader {
  user_chunk_size : option Z;
  encoding : codec;
  errors : error_policy;
  debug : bool;
  closed : bool;
  _line_count : Z;
  _bytes_processed : Z;
  _start_time : option Q;
  _total_time : Q;
  _mode : option string;
  file_path : pyval;
  file_obj : option pyfile;
  _compression_type : compression
}.

(** [_initialize_file_properties]: the values of [file_path] and [file_obj],
    or the exception raised. *)
Definition _initialize_file_properties (file_or_path : source)
  : result (pyval * option pyfile) :=
  match file_or_path with
  | Path p => Ok (PStr p, None)
  | FileObj f =>
    let path := match fo_name f with
                | Some v => v
                | None => PStr "<unknown>"
                end in
    match fo_mode f with
    | None => Ok (path, Some f)
    | Some (PStr m) =>
      if negb (str_contains "b" m)
      then Raise (ValueError "file_obj must be opened in binary mode ('rb')")
      else Ok (path, Some f)
    | Some (PInt _) => Raise (TypeError "argument of type 'int' is not iterable")
    end
  end.

Definition compression_map : list (string * compression) :=
  [ (".gz", COMPRESSION_GZIP);
    (".bz2", COMPRESSION_BZIP2);
    (".xz", COMPRESSION_XZ);
    (".lzma", COMPRESSION_LZMA) ]%string.

(** The [for ext, comp_type in compression_map.items()] loop. *)
Fixpoint detect_loop (items : list (string * compression)) (path : pyval) : compression :=
  match items with
  | [] => COMPRESSION_NONE
  | (ext, comp_type) :: rest =>
    match path with
    | PStr p => if endswith p ext then comp_type else detect_loop rest path
    | PInt _ => detect_loop rest path
    end
  end.

Definition _detect_compression_type (path : pyval) : compression :=
  detect_loop compression_map path.

(** [__init__] *)
Definition init (file_or_path : source) (chunk_size : option Z)
           (enc : codec) (errs : error_policy) (dbg : bool) : result reader :=
  match _initialize_file_properties file_or_path with
  | Raise e => Raise e
  | Ok (path, fobj) =>
    Ok (mkReader chunk_size enc errs dbg false 0 0 None 0%Q None path fobj
                 (_detect_compression_type path))
  end.

(** [_get_chunk_size]: [if self.user_chunk_size:] is false for [None] and
    for [0]. *)
Definition _get_chunk_size (r : reader) : Z :=
  match user_chunk_size r with
  | Some n => if n =? 0 then dict_get DEFAULT_CHUNK_SIZES (_compression_type r) (16 * 1024 * 1024)
              else n
  | None => dict_get DEFAULT_CHUNK_SIZES (_compression_type r) (16 * 1024 * 1024)
  end.

(** Attribute updates. *)
Definition set_counts (r : reader) (lines nbytes : Z) : reader :=
  mkReader (user_chunk_size r) (encoding r) (errors r) (debug r) (closed r)
           lines nbytes (_start_time r) (_total_time r) (_mode r)
           (file_path r) (file_obj r) (_compression_type r).

Definition set_file_obj (r : reader) (f : option pyfile) : reader :=
  mkReader (user_chunk_size r) (encoding r) (errors r) (debug r) (closed r)
           (_line_count r) (_bytes_processed r) (_start_time r) (_total_time r) (_mode r)
           (file_path r) f (_compression_type r).

Definition set_closed (r : reader) (b : bool) : reader :=
  mkReader (user_chunk_size r) (encoding r) (errors r) (debug r) b
           (_line_count r) (_bytes_processed r) (_start_time r) (_total_time r) (_mode r)
           (file_path r) (file_obj r) (_compression_type r).

Definition set_start (r : reader) (t : Q) (m : string) : reader :=
  mkReader (user_chunk_size r) (encoding r) (errors r) (debug r) (closed r)
           (_line_count r) (_bytes_processed r) (Some t) (_total_time r) (Some m)
           (file_path r) (file_obj r) (_compression_type r).

Definition set_total_time (r : reader) (t : Q) : reader :=
  mkReader (user_chunk_size r) (encoding r) (errors r) (debug r) (closed r)
           (_line_count r) (_bytes_processed r) (_start_time r) t (_mode r)
           (file_path r) (file_obj r) (_compression_type r).

(** [_track_line] *)
Definition _track_line (r : reader) : reader :=
  set_counts r (_line_count r + 1) (_bytes_processed r).

(** [close], for a file object that is true in a boolean context, as the
    streams of [io] are: the guard then tests [getattr(self.file_obj,
    'closed', True)]; the [try/except Exception: pass] swallows what the
    file's own [close] raises.  [AnyObject.close] below is the method for a
    file object of any class. *)
Definition close (r : reader) : result reader :=
  match file_obj r with
  | Some f =>
    if negb (match fo_closed f with Some b => b | None => true end)
    then
      match fo_close f with
      | (Ok _, f') => Ok (set_closed (set_file_obj r (Some f')) true)
      | (Raise _, f') => Ok (set_closed (set_file_obj r (Some f')) true)
      end
    else Ok (set_closed r true)
  | None => Ok (set_closed r true)
  end.

(** [close()] called [n] times in a row; the first exception, if any, ends
    the sequence. *)
Fixpoint close_times (n : nat) (r : reader) : result reader :=
  match n with
  | O => Ok r
  | S n' =>
    match close r with
    | Ok r' => close_times n' r'
    | Raise e => Raise e
    end
  end.

(** ** Chunk sources

    A chunk source is described by the chunks it delivers, in order, and by
    the way the sequence ends.  The line splitter consumes the sequence up
    to the first exception; when it stops early, the file object kept in
    the reader is shown as the source left it after its last read. *)
Inductive ending : Type :=
| Exhausted
| Failed (e : exn)
| OutOfFuel.

Definition data_len (f : pyfile) : nat :=
  match fo_data f with
  | Bytes b => length b
  | Text s => length s
  end.

(** The loop [while True: chunk = f.read(chunk_size); if not chunk: break;
    yield chunk]. *)
Fixpoint read_chunks (fuel : nat) (chunk_size : Z) (f : pyfile)
  : list chunk * ending * pyfile :=
  match fuel with
  | O => ([], OutOfFuel, f)
  | S fuel' =>
    match fo_read chunk_size f with
    | (Raise e, f') => ([], Failed e, f')
    | (Ok c, f') =>
      if chunk_is_empty c then ([], Exhausted, f')
      else let '(cs, e, f'') := read_chunks fuel' chunk_size f' in
           (c :: cs, e, f'')
    end
  end.

(** The world outside the reader: [open(path, 'rb')] and the openers of the
    decompression modules, each giving a binary file object over the
    (decompressed) content, or raising. *)
Inductive opener : Type := gzip_open | bz2_open | lzma_open.

Record os_env : Type := mkEnv {
  os_open : string -> result pyfile;
  open_with : opener -> string -> result pyfile
}.

Definition opener_of (c : compression) : option opener :=
  match c with
  | COMPRESSION_GZIP => Some gzip_open
  | COMPRESSION_BZIP2 => Some bz2_open
  | COMPRESSION_XZ => Some lzma_open
  | COMPRESSION_LZMA => Some lzma_open
  | COMPRESSION_NONE => None
  end.

(** [_compressed_chunk_iterator]; leaving the [with] block closes the
    stream, and what that raises replaces the pending outcome. *)
Definition _compressed_chunk_iterator (env : os_env) (r : reader) (chunk_size : Z)
  : list chunk * ending :=
  match opener_of (_compression_type r) with
  | None => ([], Failed (ValueError "Unsupported compression type: none"))
  | Some op =>
    match file_path r with
    | PInt _ => ([], Failed (ValueError "Compressed reading requires a file path string."))
    | PStr p =>
      match open_with env op p with
      | Raise e => ([], Failed e)
      | Ok f =>
        let '(cs, e, f') := read_chunks (S (data_len f)) chunk_size f in
        match fo_close f' with
        | (Raise e', _) => (cs, Failed e')
        | (Ok _, _) => (cs, e)
        end
      end
    end
  end.

(** [_ensure_file_open] *)
Definition _ensure_file_open (env : os_env) (r : reader) : result (reader * pyfile) :=
  match file_obj r with
  | Some f => Ok (r, f)
  | None =>
    match file_path r with
    | PInt _ => Raise (ValueError "file_or_path must be a path string when no file object is provided.")
    | PStr p =>
      match os_open env p with
      | Raise e => Raise e
      | Ok f => Ok (set_file_obj r (Some f), f)
      end
    end
  end.

(** *** The buffered-threaded source

    The producer thread [chunk_reader] and the consuming generator share a
    bounded FIFO queue.  The producer alternates between reading and
    putting; [put] blocks on a full queue and [get] on an empty one. *)
Inductive item : Type :=
| QChunk (c : chunk)
| QNone
| QExc (e : exn).

Inductive producer : Type :=
| PReading
| PPutting (x : item)
| PExited
| PCrashed (e : exn).

Inductive consumer : Type :=
| CRunning
| CFinished
| CRaised (e : exn).

Record bstate : Type := mkB {
  b_file : pyfile;
  b_producer : producer;
  b_queue : list item;
  b_yielded : list chunk;
  b_consumer : consumer
}.

Definition queue_size : nat := 8.

(** One action of the producer thread.  A failing [read] is caught by the
    [except Exception] clause, which puts the exception object. *)
Definition producer_step (chunk_size : Z) (s : bstate) : option bstate :=
  match b_producer s with
  | PReading =>
    match fo_read chunk_size (b_file s) with
    | (Raise e, f') =>
      Some (mkB f' (PPutting (QExc e)) (b_queue s) (b_yielded s) (b_consumer s))
    | (Ok c, f') =>
      let x := if chunk_is_empty c then QNone else QChunk c in
      Some (mkB f' (PPutting x) (b_queue s) (b_yielded s) (b_consumer s))
    end
  | PPutting x =>
    if (length (b_queue s) <? queue_size)%nat
    then Some (mkB (b_file s)
                   (match x with QChunk _ => PReading | _ => PExited end)
                   (b_queue s ++ [x]) (b_yielded s) (b_consumer s))
    else None
  | PExited => None
  | PCrashed _ => None
  end.

(** One action of the consumer: [chunk = chunk_queue.get()] and the tests
    that follow it. *)
Definition consumer_step (s : bstate) : option bstate :=
  match b_consumer s with
  | CRunning =>
    match b_queue s with
    | [] => None
    | QExc e :: q => Some (mkB (b_file s) (b_producer s) q (b_yielded s) (CRaised e))
    | QNone :: q => Some (mkB (b_file s) (b_producer s) q (b_yielded s) CFinished)
    | QChunk c :: q => Some (mkB (b_file s) (b_producer s) q (b_yielded s ++ [c]) CRunning)
    end
  | _ => None
  end.

(** The interleavings of the two threads. *)
Inductive step (chunk_size : Z) : bstate -> bstate -> Prop :=
| step_producer s s' : producer_step chunk_size s = Some s' -> step chunk_size s s'
| step_consumer s s' : consumer_step s = Some s' -> step chunk_size s s'.

Inductive steps (chunk_size : Z) : nat -> bstate -> bstate -> Prop :=
| steps_refl s : steps chunk_size 0 s s
| steps_next n s s' s'' :
    steps chunk_size n s s' -> step chunk_size s' s'' -> steps chunk_size (S n) s s''.

Definition stuck (chunk_size : Z) (s : bstate) : Prop :=
  producer_step chunk_size s = None /\ consumer_step s = None.

Definition b_init (f : pyfile) : bstate := mkB f PReading [] [] CRunning.

(** A bound on the number of actions still possible. *)
Definition producer_potential (s : bstate) : nat :=
  match b_producer s with
  | PReading => 2 * S (data_len (b_file s))
  | PPutting (QChunk _) => S (2 * S (data_len (b_file s)))
  | PPutting _ => 1
  | PExited => 0
  | PCrashed _ => 0
  end.

Definition potential (s : bstate) : nat :=
  (2 * producer_potential s + length (b_queue s))%nat.

(** One schedule: the consumer runs whenever it can, the producer
    otherwise. *)
Fixpoint run (fuel : nat) (chunk_size : Z) (s : bstate) : bstate :=
  match fuel with
  | O => s
  | S fuel' =>
    match consumer_step s with
    | Some s' => run fuel' chunk_size s'
    | None =>
      match producer_step chunk_size s with
      | Some s' => run fuel' chunk_size s'
      | None => s
      end
    end
  end.

Definition ending_of (c : consumer) : ending :=
  match c with
  | CRunning => OutOfFuel
  | CFinished => Exhausted
  | CRaised e => Failed e
  end.

(** [_buffered_chunk_iterator] *)
Definition _buffered_chunk_iterator (env : os_env) (r : reader) (chunk_size : Z)
  : list chunk * ending * reader :=
  match _ensure_file_open env r with
  | Raise e => ([], Failed e, r)
  | Ok (r1, f) =>
    let s := run (potential (b_init f)) chunk_size (b_init f) in
    (b_yielded s, ending_of (b_consumer s), set_file_obj r1 (Some (b_file s)))
  end.

(** The values that travel through the queue for a chunk sequence [cs]
    ending in [e]: the chunks, then the sentinel [None] or the exception. *)
Definition terminal (e : ending) : item :=
  match e with
  | Failed x => QExc x
  | _ => QNone
  end.

Definition items_of (cs : list chunk) (e : ending) : list item :=
  (map QChunk cs ++ [terminal e])%list.

(** What a producer that is about to read [f] will put, in order. *)
Definition reads_from (chunk_size : Z) (f : pyfile) : list item :=
  let '(cs, e, _) := read_chunks (S (data_len f)) chunk_size f in items_of cs e.

(** What the producer has still to put. *)
Definition future (chunk_size : Z) (s : bstate) : list item :=
  match b_producer s with
  | PReading => reads_from chunk_size (b_file s)
  | PPutting (QChunk c) => QChunk c :: reads_from chunk_size (b_file s)
  | PPutting x => [x]
  | PExited => []
  | PCrashed _ => []
  end.

(** What the consumer has taken from the queue. *)
Definition consumed (s : bstate) : list item :=
  (map QChunk (b_yielded s) ++
   match b_consumer s with
   | CRunning => []
   | CFinished => [QNone]
   | CRaised e => [QExc e]
   end)%list.

(** The invariant of the two threads: what was consumed, what waits in the
    queue and what the producer has still to put make up, in this order, the
    sequence of the producer's reads; and the producer never dies of an
    exception. *)
Definition history_inv (chunk_size : Z) (f0 : pyfile) (s : bstate) : Prop :=
  (consumed s ++ b_queue s ++ future chunk_size s)%list = reads_from chunk_size f0 /\
  (forall x, b_producer s <> PCrashed x).

(** What is claimed of a state [s] that the two threads reach in [n]
    actions from the start on [f]: the reads of the producer give chunks
    [cs] and end in [e]; then every value put is one of these, in order,
    none is lost and the producer has not died; the consumer has yielded a
    prefix of [cs]; if it has raised, it raised the exception of the failing
    read after yielding all of [cs]; if it has finished, the reads ended
    with an empty chunk; while it runs, some thread can act; when no thread
    can act, it has ended as the reads did; and [n] is bounded. *)
Definition errors_surface (chunk_size : Z) (f : pyfile) (n : nat) (s : bstate) : Prop :=
  exists cs e f',
    read_chunks (S (data_len f)) chunk_size f = (cs, e, f') /\
    e <> OutOfFuel /\
    (consumed s ++ b_queue s ++ future chunk_size s)%list = items_of cs e /\
    (forall x, b_producer s <> PCrashed x) /\
    (exists tl, cs = (b_yielded s ++ tl)%list) /\
    (forall x, b_consumer s = CRaised x -> e = Failed x /\ b_yielded s = cs) /\
    (b_consumer s = CFinished -> e = Exhausted /\ b_yielded s = cs) /\
    (b_consumer s = CRunning -> exists s', step chunk_size s s') /\
    (stuck chunk_size s ->
     b_consumer s = match e with Failed x => CRaised x | _ => CFinished end /\
     b_yielded s = cs) /\
    (n <= potential (b_init f))%nat.

(** A stream whose second read fails with [EIO]. *)
Definition faulty_stream : pyfile :=
  mkFile None None (Some false) (Bytes [104; 105; 10; 33]) (Some (1%nat, OSError 5)) None.

(** ** The decoder and line splitter *)

(** [text.split('\n')]: never empty; the last part is what follows the last
    terminator. *)
Fixpoint split_nl (s : str) : list str :=
  match s with
  | [] => [[]]
  | c :: s' =>
    if c =? NL then [] :: split_nl s'
    else match split_nl s' with
         | [] => [[c]]
         | p :: ps => (c :: p) :: ps
         end
  end.

(** ['\n' in text] *)
Definition has_nl (s : str) : bool := existsb (fun c => c =? NL) s.

(** [for line in lines: self._track_line(line)] *)
Definition track_lines (r : reader) (lines : list str) : reader :=
  fold_left (fun acc _ => _track_line acc) lines r.

Section LineSplitter.

(** [chunk.decode(self.encoding, errors=self.errors)] *)
Variable decode : chunk -> result str.

(** The body of the [for chunk in chunk_iterator] loop, from a given
    [text_buffer]: the lines yielded, the reader afterwards, and the final
    [text_buffer] or the exception that ended the loop. *)
Fixpoint lines_loop (chunks : list chunk) (text_buffer : str) (r : reader)
  : list str * reader * result str :=
  match chunks with
  | [] => ([], r, Ok text_buffer)
  | c :: rest =>
    if chunk_is_empty c then lines_loop rest text_buffer r
    else
      let r1 := set_counts r (_line_count r) (_bytes_processed r + chunk_len c) in
      match decode c with
      | Raise e => ([], r1, Raise e)
      | Ok text =>
        let text_buffer' := (text_buffer ++ text)%list in
        if has_nl text_buffer' then
          let parts := split_nl text_buffer' in
          let lines := removelast parts in
          let '(more, r2, res) :=
            lines_loop rest (last parts []) (track_lines r1 lines) in
          ((lines ++ more)%list, r2, res)
        else lines_loop rest text_buffer' r1
      end
  end.

(** [_read_lines_from_chunks]: the loop, then the final flush.  An
    exception raised by decoding, or by the chunk source after its last
    chunk, ends the generator without the flush. *)
Definition _read_lines_from_chunks (chunks : list chunk) (e : ending) (r : reader)
  : list str * ending * reader :=
  match lines_loop chunks [] r with
  | (lines, r1, Raise x) => (lines, Failed x, r1)
  | (lines, r1, Ok text_buffer) =>
    match e with
    | Exhausted =>
      match text_buffer with
      | [] => (lines, Exhausted, r1)
      | _ => ((lines ++ [text_buffer])%list, Exhausted, _track_line r1)
      end
    | other => (lines, other, r1)
    end
  end.

End LineSplitter.

(** ** The facade *)

(** [__iter__], consumed to its end, with the two readings [t0] and [t1] of
    [time.time()].  The [finally] clause stores the elapsed time and closes.
    The call of [_get_file_size] changes nothing (its result is dropped and
    its exceptions are swallowed), and the profiling of the [debug] branch
    only prints; both are left out. *)
Definition iterate (env : os_env) (t0 t1 : Q) (r : reader)
  : list str * ending * reader :=
  let chunk_size := _get_chunk_size r in
  let compressed := negb (compression_eqb (_compression_type r) COMPRESSION_NONE) in
  let r0 := set_start r t0 (if compressed then "compressed" else "buffered") in
  let '(chunks, e, r1) :=
    if compressed
    then let '(cs, e) := _compressed_chunk_iterator env r0 chunk_size in (cs, e, r0)
    else _buffered_chunk_iterator env r0 chunk_size in
  let '(lines, e', r2) :=
    _read_lines_from_chunks (chunk_decode (encoding r) (errors r)) chunks e r1 in
  let r3 := set_total_time r2 (t1 - t0)%Q in
  match close r3 with
  | Ok r4 => (lines, e', r4)
  | Raise x => (lines, Failed x, r3)
  end.

(** ** Statistics *)

(** [a / b] on numbers: [ZeroDivisionError] for a zero divisor. *)
Definition truediv (a b : Q) : result Q :=
  if Qeq_bool b 0 then Raise (ZeroDivisionError "division by zero") else Ok (a / b)%Q.

(** [a > 0] *)
Definition is_positive (a : Q) : bool := negb (Qle_bool a 0).

(** [int(x)]: truncation towards zero. *)
Definition int_of (q : Q) : Z := Z.quot (Qnum q) (Zpos (Qden q)).

(** [round(x, 2)], with ties to the even neighbour. *)
Definition round_half_even (q : Q) : Z :=
  let fl := Qfloor q in
  let frac := (q - inject_Z fl)%Q in
  match Qcompare frac (1 # 2) with
  | Lt => fl
  | Gt => fl + 1
  | Eq => if Z.even fl then fl else fl + 1
  end.

Definition round2 (q : Q) : Q := (inject_Z (round_half_even (q * 100)) / 100)%Q.

(** [os.path.basename]: what follows the last ['/']. *)
Fixpoint basename (p : string) : string :=
  match p with
  | EmptyString => EmptyString
  | String c p' =>
    if str_contains "/" p then basename p' else p
  end.

Record stats : Type := mkStats {
  st_file : string;
  st_mode : option string;
  st_lines : Z;
  st_bytes : Z;
  st_time : Q;
  st_lines_per_s : Z;
  st_MB_per_s : Q
}.

(** [get_stats]: the dictionary, or the exception a division raises.  The
    quotients and [round] are taken on exact rationals, where the code
    computes on doubles. *)
Definition get_stats (r : reader) : result stats :=
  match truediv (inject_Z (_bytes_processed r)) (inject_Z (1024 * 1024)) with
  | Raise e => Raise e
  | Ok mb =>
    let lines_per_sec :=
      if is_positive (_total_time r)
      then match truediv (inject_Z (_line_count r)) (_total_time r) with
           | Ok q => Ok (int_of q)
           | Raise e => Raise e
           end
      else Ok 0 in
    match lines_per_sec with
    | Raise e => Raise e
    | Ok l =>
      let mb_per_sec :=
        if is_positive (_total_time r)
        then truediv mb (_total_time r)
        else Ok 0%Q in
      match mb_per_sec with
      | Raise e => Raise e
      | Ok m =>
        Ok (mkStats
              (match file_path r with PStr p => basename p | PInt _ => "<stream>" end)
              (_mode r) (_line_count r) (_bytes_processed r)
              (round2 (_total_time r)) l (round2 m))
      end
    end
  end.

(** ** Notions used to state the properties *)

(** The text the reader decodes: the decoded non-empty chunks, one after the
    other. *)
Fixpoint decoded_text (decode : chunk -> result str) (chunks : list chunk) : result str :=
  match chunks with
  | [] => Ok []
  | c :: rest =>
    if chunk_is_empty c then decoded_text decode rest
    else match decode c with
         | Raise e => Raise e
         | Ok t =>
           match decoded_text decode rest with
           | Ok u => Ok (t ++ u)%list
           | Raise e => Raise e
           end
         end
  end.

(** The lines of a text: its parts between terminators, without the part
    after the last terminator when that part is empty. *)
Definition lines_of_text (text : str) : list str :=
  let parts := split_nl text in
  match last parts [] with
  | [] => removelast parts
  | _ => parts
  end.

(** The lines put back together, with a terminator after each line, or
    between the lines only. *)
Definition with_terminators (lines : list str) : str :=
  concat (map (fun l => l ++ [NL])%list lines).

Fixpoint join_nl (lines : list str) : str :=
  match lines with
  | [] => []
  | [l] => l
  | l :: rest => (l ++ NL :: join_nl rest)%list
  end.

(** The number of octets or characters in a sequence of chunks. *)
Definition total_len (chunks : list chunk) : Z :=
  fold_right (fun c acc => chunk_len c + acc) 0 chunks.

(** The file object an iteration reads from. *)
Definition source_handle (env : os_env) (r : reader) : result pyfile :=
  if negb (compression_eqb (_compression_type r) COMPRESSION_NONE)
  then match opener_of (_compression_type r), file_path r with
       | Some op, PStr p => open_with env op p
       | _, _ => Raise (ValueError "no stream")
       end
  else match _ensure_file_open env r with
       | Ok (_, f) => Ok f
       | Raise e => Raise e
       end.

(** A file object that is open and whose reads and [close] do not fail. *)
Definition clean (f : pyfile) : Prop :=
  fo_closed f <> Some true /\ fo_fault f = None /\ fo_close_raises f = None.

(** Construction followed by a complete iteration: the lines and the way
    the iteration ended. *)
Definition read_all (env : os_env) (src : source) (chunk_size : option Z)
           (enc : codec) (errs : error_policy) : result (list str * ending) :=
  match init src chunk_size enc errs false with
  | Raise e => Raise e
  | Ok r => let '(lines, e, _) := iterate env 0 0 r in Ok (lines, e)
  end.

(** ** Inputs used in the examples below *)

(** A binary stream opened on a file named [data.gz], as
    [open('data.gz', 'rb')] gives. *)
Definition gz_named_stream : pyfile :=
  mkFile (Some (PStr "data.gz")) (Some (PStr "rb")) (Some false) (Bytes []) None None.

(** [io.StringIO('abc')]: a text stream; it has neither [name] nor [mode]. *)
Definition string_io_abc : pyfile :=
  mkFile None None (Some false) (Text [97; 98; 99]) None None.

(** [open('notes.txt', 'r')]: a text stream whose [mode] is ['r']. *)
Definition text_mode_stream : pyfile :=
  mkFile (Some (PStr "notes.txt")) (Some (PStr "r")) (Some false) (Text [97; 10]) None None.

(** [io.BytesIO(content)] *)
Definition bytes_io (content : bytes) : pyfile :=
  mkFile None None (Some false) (Bytes content) None None.

(** The UTF-8 encoding of e-acute (U+00E9), and of a text of two lines
    whose first line ends with it: c, a, f, e-acute, newline, o, k. *)
Definition e_acute : bytes := [195; 169].
Definition cafe_ok : bytes := [99; 97; 102; 195; 169; 10; 111; 107].

(** A world with no files. *)
Definition no_files : os_env :=
  mkEnv (fun _ => Raise (OSError 2)) (fun _ _ => Raise (OSError 2)).

(** A world in which every path opens, through any opener, on a fresh
    binary file with the given (decompressed) content. *)
Definition one_file (content : bytes) : os_env :=
  mkEnv (fun p => Ok (mkFile (Some (PStr p)) (Some (PStr "rb")) (Some false)
                             (Bytes content) None None))
        (fun _ p => Ok (mkFile (Some (PStr p)) (Some (PStr "rb")) (Some false)
                               (Bytes content) None None)).

(** What the code's own guard [getattr(file_obj, 'closed', True)] observes. *)
Definition observed_closed (f : pyfile) : bool :=
  match fo_closed f with
  | Some b => b
  | None => true
  end.

(** What [close] establishes in the code's own terms: the flag is set and
    the guard finds nothing left to close. *)
Definition released (r : reader) : Prop :=
  closed r = true /\
  match file_obj r with
  | Some f => observed_closed f = true
  | None => True
  end.

(** ** Closing a file object of any class

    [close] above is the method for a reader whose file object is true in a
    boolean context and whose own [close()] marks it closed, as the stream
    objects of [io] are.  Here the truth value [bool(self.file_obj)] and the
    effect of [self.file_obj.close()] are those of the object's class,
    whatever it is: the truth test of the [if] stands outside the
    [try/except], so what it raises leaves [close]. *)
Inductive truth : Type :=
| IsTrue
| IsFalse
| TruthRaises (e : exn).

Module AnyObject.

Section Object.

(** [bool(f)] and [f.close()] for the class of the file object. *)
Variable truth_of : pyfile -> truth.
Variable object_close : pyfile -> result unit * pyfile.

(** [close] *)
Definition close (r : reader) : result reader :=
  match file_obj r with
  | None => Ok (set_closed r true)
  | Some f =>
    match truth_of f with
    | TruthRaises e => Raise e
    | IsFalse => Ok (set_closed r true)
    | IsTrue =>
      if negb (match fo_closed f with Some b => b | None => true end)
      then
        match object_close f with
        | (Ok _, f') => Ok (set_closed (set_file_obj r (Some f')) true)
        | (Raise _, f') => Ok (set_closed (set_file_obj r (Some f')) true)
        end
      else Ok (set_closed r true)
    end
  end.

(** [close()] called [n] times in a row. *)
Fixpoint close_times (n : nat) (r : reader) : result reader :=
  match n with
  | O => Ok r
  | S n' =>
    match close r with
    | Ok r' => close_times n' r'
    | Raise e => Raise e
    end
  end.





End Object.

End AnyObject.




(** [bool(m)] for an [mmap.mmap]: its length, which a closed map refuses to
    give. *)
Definition mmap_truth (f : pyfile) : truth :=
  match fo_closed f with
  | Some true => TruthRaises (ValueError "mmap closed or invalid")
  | _ => IsTrue
  end.

(** The sizes that [read] takes alike on every stream the reader meets
    ([io.BytesIO], files from [open] and from the decompression modules):
    [-1] for all the content, or a count from 0 up to 128 MiB, the largest
    size of [DEFAULT_CHUNK_SIZES].  Below [-1] some of these streams raise;
    above, [read] depends on the memory at hand and, from [2^63 - 1] up,
    refuses the count. *)
Definition supported_size (n : Z) : Prop := -1 <= n <= 128 * 1024 * 1024.

(** ** Further notions used to state the properties *)

(** Two states of a reader that differ at most in the two counters. *)
Definition same_but_counts (r r' : reader) : Prop :=
  r' = set_counts r (_line_count r') (_bytes_processed r').

(** The size of a value held by the queue, and of the whole queue. *)
Definition item_len (x : item) : Z :=
  match x with
  | QChunk c => chunk_len c
  | _ => 0
  end.

Definition queue_bytes (q : list item) : Z :=
  fold_right (fun x acc => item_len x + acc) 0 q.

(** The bound kept on the queue by the blocking [put]. *)
Definition queue_inv (chunk_size : Z) (s : bstate) : Prop :=
  (length (b_queue s) <= queue_size)%nat /\
  (0 <= chunk_size ->
   Forall (fun x => item_len x <= chunk_size) (b_queue s) /\
   match b_producer s with
   | PPutting x => item_len x <= chunk_size
   | _ => True
   end).

(** The chunks that are not empty. *)
Definition non_empty_chunks (chunks : list chunk) : list chunk :=
  filter (fun c => negb (chunk_is_empty c)) chunks.

(** The codec gives back the octets of every piece of [content]. *)
Definition octets_kept (enc : codec) (content : bytes) : Prop :=
  enc = latin_1 \/
  (enc = utf_8 /\ Forall (fun b => b < 128) content) \/
  (enc = ascii_codec /\ Forall (fun b => b < 128) content).

(** * Properties *)

(** ** Strings *)

Lemma substring_all (s : string) : substring 0 (String.length s) s = s.
Proof.
  induction s as [|c s IH]; simpl; [reflexivity | now rewrite IH].
Qed.

Lemma substring_after (a s : string) :
  substring (String.length a) (String.length s) (a ++ s) = s.
Proof.
  induction a as [|c a IH]; simpl.
  - apply substring_all.
  - exact IH.
Qed.

Lemma string_length_app (a s : string) :
  String.length (a ++ s) = (String.length a + String.length s)%nat.
Proof.
  induction a as [|c a IH]; simpl; [reflexivity | now rewrite IH].
Qed.

Lemma substring_split (k : nat) (p : string) :
  (k <= String.length p)%nat ->
  p = (substring 0 k p ++ substring k (String.length p - k) p)%string.
Proof.
  revert p; induction k as [|k IH]; intros p Hk.
  - simpl. rewrite Nat.sub_0_r, substring_all.
    destruct p; reflexivity.
  - destruct p as [|c p]; simpl in *; [lia|].
    f_equal. apply IH. lia.
Qed.

(** [endswith] holds exactly of the strings that are a prefix followed by the
    suffix. *)
Lemma endswith_spec (p suffix : string) :
  endswith p suffix = true <-> exists a, p = (a ++ suffix)%string.
Proof.
  unfold endswith. rewrite andb_true_iff, Nat.leb_le, String.eqb_eq. split.
  - intros [Hle Hsub].
    exists (substring 0 (String.length p - String.length suffix) p).
    rewrite (substring_split (String.length p - String.length suffix) p) at 1 by lia.
    f_equal.
    replace (String.length p - (String.length p - String.length suffix))%nat
      with (String.length suffix) by lia.
    exact Hsub.
  - intros [a ->]. rewrite string_length_app. split; [lia|].
    replace (String.length a + String.length suffix - String.length suffix)%nat
      with (String.length a) by lia.
    apply substring_after.
Qed.

Lemma endswith_app (a suffix : string) : endswith (a ++ suffix) suffix = true.
Proof. apply endswith_spec. now exists a. Qed.

Lemma last_char_app (a : string) (c : ascii) (s : string) :
  last_char (a ++ String c s) = last_char (String c s).
Proof.
  induction a as [|x a IH]; [reflexivity|].
  change (last_char (String x (a ++ String c s)) = last_char (String c s)).
  rewrite <- IH. simpl. destruct (a ++ String c s)%string eqn:E; [|reflexivity].
  destruct a; discriminate.
Qed.

Lemma endswith_last_char (p t : string) :
  endswith p t = true -> t <> EmptyString -> last_char p = last_char t.
Proof.
  intros H Ht. apply endswith_spec in H as [a ->].
  destruct t as [|c t]; [congruence|]. apply last_char_app.
Qed.

Lemma substring_app_skip (a s : string) (k m : nat) :
  substring (String.length a + k) m (a ++ s) = substring k m s.
Proof.
  induction a as [|c a IH]; simpl; [reflexivity | exact IH].
Qed.

(** A suffix no longer than [s] is looked for in [s] alone. *)
Lemma endswith_app_short (a s t : string) :
  (String.length t <= String.length s)%nat ->
  endswith (a ++ s) t = endswith s t.
Proof.
  intros Hle. unfold endswith. rewrite string_length_app.
  replace (String.length a + String.length s - String.length t)%nat
    with (String.length a + (String.length s - String.length t))%nat by lia.
  rewrite substring_app_skip.
  f_equal.
  apply Nat.leb_le in Hle as Hb. rewrite Hb.
  apply Nat.leb_le. lia.
Qed.

(** ** Format detection and construction *)

Lemma detect_gz (a : string) :
  _detect_compression_type (PStr (a ++ ".gz")) = COMPRESSION_GZIP.
Proof.
  unfold _detect_compression_type; simpl. now rewrite endswith_app.
Qed.

Lemma detect_bz2 (a : string) :
  _detect_compression_type (PStr (a ++ ".bz2")) = COMPRESSION_BZIP2.
Proof.
  unfold _detect_compression_type; simpl.
  rewrite (endswith_app_short a ".bz2" ".gz") by (simpl; lia).
  simpl. now rewrite endswith_app.
Qed.

Lemma detect_xz (a : string) :
  _detect_compression_type (PStr (a ++ ".xz")) = COMPRESSION_XZ.
Proof.
  unfold _detect_compression_type; simpl.
  rewrite (endswith_app_short a ".xz" ".gz") by (simpl; lia).
  simpl.
  destruct (endswith (a ++ ".xz") ".bz2") eqn:E.
  - apply endswith_last_char in E; [|discriminate].
    rewrite last_char_app in E. discriminate.
  - now rewrite endswith_app.
Qed.

Lemma detect_lzma (a : string) :
  _detect_compression_type (PStr (a ++ ".lzma")) = COMPRESSION_LZMA.
Proof.
  unfold _detect_compression_type; simpl.
  rewrite (endswith_app_short a ".lzma" ".gz") by (simpl; lia).
  rewrite (endswith_app_short a ".lzma" ".bz2") by (simpl; lia).
  rewrite (endswith_app_short a ".lzma" ".xz") by (simpl; lia).
  simpl. now rewrite endswith_app.
Qed.

Lemma detect_no_suffix (p : string) :
  (forall ext c, In (ext, c) compression_map -> ~ exists a, p = (a ++ ext)%string) ->
  _detect_compression_type (PStr p) = COMPRESSION_NONE.
Proof.
  intros H. unfold _detect_compression_type.
  assert (G : forall items, incl items compression_map ->
                            detect_loop items (PStr p) = COMPRESSION_NONE).
  { induction items as [|[ext c] items IH]; intros Hin; [reflexivity|].
    simpl. destruct (endswith p ext) eqn:E.
    - exfalso. apply (H ext c); [apply Hin; now left|].
      now apply endswith_spec.
    - apply IH. intros x Hx. apply Hin. now right. }
  apply G. apply incl_refl.
Qed.

Lemma detect_not_a_string (n : Z) :
  _detect_compression_type (PInt n) = COMPRESSION_NONE.
Proof. reflexivity. Qed.

Lemma init_fields src cs enc errs dbg r :
  init src cs enc errs dbg = Ok r ->
  file_path r = match src with
                | Path p => PStr p
                | FileObj f => match fo_name f with
                               | Some v => v
                               | None => PStr "<unknown>"
                               end
                end /\
  _compression_type r = _detect_compression_type (file_path r) /\
  user_chunk_size r = cs /\ _line_count r = 0 /\ _bytes_processed r = 0 /\
  closed r = false /\ encoding r = enc /\ errors r = errs /\
  file_obj r = match src with Path _ => None | FileObj f => Some f end.
Proof.
  unfold init. destruct src as [p|f]; simpl.
  - intros [= <-]. simpl. repeat split; reflexivity.
  - destruct (fo_mode f) as [[m|n]|]; simpl.
    + destruct (str_contains "b" m); simpl; [|discriminate].
      intros [= <-]. simpl. repeat split; reflexivity.
    + discriminate.
    + intros [= <-]. simpl. repeat split; reflexivity.
Qed.

(** C3, counterexample: a binary stream opened on [data.gz] is a stream
    object, and the reader built on it has format gzip, not none. *)
Lemma C3_stream_named_gz_is_gzip :
  exists r, init (FileObj gz_named_stream) None utf_8 replace false = Ok r /\
            _compression_type r = COMPRESSION_GZIP /\
            _compression_type r <> COMPRESSION_NONE.
Proof.
  eexists. split; [reflexivity|]. split; [reflexivity|discriminate].
Qed.

(** C3, as amended: construction from a path never fails, and the format is
    a function of [file_path] alone (the path, or the [name] attribute of a
    stream, ['<unknown>'] when it has none): the format of the recognized
    suffix the string ends with, and none when [file_path] is not a string
    ending with a recognized suffix, in particular for a stream without a
    name. *)
Theorem C3_detection_by_file_path :
  (forall p cs enc errs dbg, exists r, init (Path p) cs enc errs dbg = Ok r) /\
  (forall src cs enc errs dbg r,
      init src cs enc errs dbg = Ok r ->
      _compression_type r = _detect_compression_type (file_path r) /\
      (forall a, file_path r = PStr (a ++ ".gz") -> _compression_type r = COMPRESSION_GZIP) /\
      (forall a, file_path r = PStr (a ++ ".bz2") -> _compression_type r = COMPRESSION_BZIP2) /\
      (forall a, file_path r = PStr (a ++ ".xz") -> _compression_type r = COMPRESSION_XZ) /\
      (forall a, file_path r = PStr (a ++ ".lzma") -> _compression_type r = COMPRESSION_LZMA) /\
      ((forall ext c, In (ext, c) compression_map ->
                      ~ exists a, file_path r = PStr (a ++ ext)) ->
       _compression_type r = COMPRESSION_NONE) /\
      (forall f, src = FileObj f -> fo_name f = None ->
                 _compression_type r = COMPRESSION_NONE)).
Proof.
  split.
  - intros. eexists. reflexivity.
  - intros src cs enc errs dbg r Hinit.
    destruct (init_fields _ _ _ _ _ _ Hinit) as (Hpath & Hct & _).
    split; [exact Hct|]. rewrite Hct.
    repeat split.
    + intros a ->. apply detect_gz.
    + intros a ->. apply detect_bz2.
    + intros a ->. apply detect_xz.
    + intros a ->. apply detect_lzma.
    + intros Hno. destruct (file_path r) as [p|n]; [|reflexivity].
      apply detect_no_suffix. intros ext c Hin [a Ha].
      apply (Hno ext c Hin). exists a. now rewrite Ha.
    + intros f -> Hname. rewrite Hpath, Hname. reflexivity.
Qed.

Lemma C3_detection_by_file_path_witness :
  exists r, init (Path "logs/app.log.gz") None utf_8 replace false = Ok r /\
            _compression_type r = COMPRESSION_GZIP.
Proof.
  eexists. split; [reflexivity|].
  destruct (proj2 C3_detection_by_file_path (Path "logs/app.log.gz") None utf_8
                  replace false _ eq_refl) as (_ & Hgz & _).
  apply (Hgz "logs/app.log"%string). reflexivity.
Defined.

(** C6, counterexample: a text stream that has no [mode] attribute is
    accepted by the constructor; iterating reads a chunk and then fails with
    [AttributeError], not with the configuration error. *)
Lemma C6_text_stream_without_mode_accepted :
  exists r r',
    init (FileObj string_io_abc) None utf_8 replace false = Ok r /\
    iterate no_files 0 1 r =
      ([], Failed (AttributeError "'str' object has no attribute 'decode'"), r') /\
    _bytes_processed r' = 3.
Proof.
  eexists. eexists. split; [reflexivity|]. split; vm_compute; reflexivity.
Qed.

(** C6, as amended: a stream whose [mode] attribute is a string without
    ['b'] makes the constructor raise [ValueError], so that no reader exists
    and nothing is read; a stream without a [mode] attribute passes
    unchecked and is stored as it came. *)
Theorem C6_non_binary_mode_rejected :
  (forall f m cs enc errs dbg,
      fo_mode f = Some (PStr m) -> str_contains "b" m = false ->
      init (FileObj f) cs enc errs dbg =
        Raise (ValueError "file_obj must be opened in binary mode ('rb')")) /\
  (forall f cs enc errs dbg,
      fo_mode f = None ->
      exists r, init (FileObj f) cs enc errs dbg = Ok r /\ file_obj r = Some f).
Proof.
  split.
  - intros f m cs enc errs dbg Hm Hb. unfold init; simpl. rewrite Hm, Hb. reflexivity.
  - intros f cs enc errs dbg Hm. unfold init; simpl. rewrite Hm.
    eexists. split; reflexivity.
Qed.

Lemma C6_non_binary_mode_rejected_witness :
  init (FileObj text_mode_stream) None utf_8 replace false =
    Raise (ValueError "file_obj must be opened in binary mode ('rb')").
Proof.
  apply (proj1 C6_non_binary_mode_rejected text_mode_stream "r"%string);
    reflexivity.
Defined.

(** ** Chunk size *)

(** C10: an explicit chunk size of 0 gives the default of the format, taken
    from the table; a nonzero chunk size is used as it is. *)
Theorem C10_zero_chunk_size_uses_default :
  forall r,
    (user_chunk_size r = Some 0 ->
     _get_chunk_size r =
       dict_get DEFAULT_CHUNK_SIZES (_compression_type r) (16 * 1024 * 1024) /\
     In (_compression_type r, _get_chunk_size r) DEFAULT_CHUNK_SIZES /\
     _get_chunk_size r <> 0) /\
    (forall n, n <> 0 -> user_chunk_size r = Some n -> _get_chunk_size r = n).
Proof.
  intros r. split.
  - intros H. unfold _get_chunk_size. rewrite H. simpl.
    destruct (_compression_type r); simpl; repeat split; auto 6; discriminate.
  - intros n Hn H. unfold _get_chunk_size. rewrite H.
    destruct (Z.eqb_spec n 0); [contradiction | reflexivity].
Qed.

Lemma C10_zero_chunk_size_uses_default_witness :
  exists r, init (Path "a.bz2") (Some 0) utf_8 replace false = Ok r /\
            _get_chunk_size r = 16777216.
Proof.
  eexists. split; [reflexivity|].
  destruct (proj1 (C10_zero_chunk_size_uses_default
                     (mkReader (Some 0) utf_8 replace false false 0 0 None 0%Q None
                               (PStr "a.bz2") None COMPRESSION_BZIP2)) eq_refl)
    as (H & _).
  exact H.
Defined.

(** ** Closing *)

Lemma close_spec (r : reader) :
  exists r', close r = Ok r' /\ released r' /\ close r' = Ok r'.
Proof.
  unfold close, released.
  destruct (file_obj r) as [f|] eqn:Hf.
  - destruct (fo_closed f) as [[|]|] eqn:Hc; simpl.
    + eexists. split; [reflexivity|]. simpl. rewrite Hf. unfold observed_closed.
      rewrite Hc. simpl. repeat split.
    + unfold fo_close. rewrite Hc.
      destruct (fo_close_raises f); eexists; (split; [reflexivity|]); simpl;
        repeat split.
    + eexists. split; [reflexivity|]. simpl. rewrite Hf. unfold observed_closed.
      rewrite Hc. simpl. repeat split.
  - eexists. split; [reflexivity|]. simpl. rewrite Hf. repeat split.
Qed.

Lemma close_times_fixed (r : reader) (n : nat) :
  close r = Ok r -> close_times n r = Ok r.
Proof.
  intros H. induction n as [|n IH]; simpl; [reflexivity|]. now rewrite H.
Qed.

Lemma any_close_of_stream (r : reader) :
  AnyObject.close (fun _ => IsTrue) fo_close r = close r.
Proof.
  unfold AnyObject.close, close. destruct (file_obj r) as [f|]; [|reflexivity].
  destruct (negb _); [|reflexivity]. now destruct (fo_close f) as [[u|e] f'].
Qed.






(** What the amended claim leaves out: the truth test of a closed
    [mmap.mmap] raises, so that the second [close()] raises. *)
Lemma close_again_on_mmap_raises :
  exists r r1,
    init (FileObj (bytes_io [104; 105])) None utf_8 replace false = Ok r /\
    AnyObject.close mmap_truth fo_close r = Ok r1 /\
    AnyObject.close mmap_truth fo_close r1 = Raise (ValueError "mmap closed or invalid").
Proof.
  eexists. eexists. split; [reflexivity|]. split; reflexivity.
Qed.



(** ** Reading in chunks *)

Lemma split_at_app {A : Type} (n : Z) (l hd tl : list A) :
  split_at n l = (hd, tl) -> l = (hd ++ tl)%list.
Proof.
  revert n hd tl; induction l as [|x l IH]; intros n hd tl; simpl.
  - intros [= <- <-]. reflexivity.
  - destruct (n <=? 0).
    + intros [= <- <-]. reflexivity.
    + destruct (split_at (n - 1) l) as [h t] eqn:E.
      intros [= <- <-]. simpl. f_equal. now apply (IH (n - 1)).
Qed.

Lemma take_prefix_app {A : Type} (n : Z) (l hd tl : list A) :
  take_prefix n l = (hd, tl) -> l = (hd ++ tl)%list.
Proof.
  unfold take_prefix. destruct (n <? 0).
  - intros [= <- <-]. now rewrite app_nil_r.
  - apply split_at_app.
Qed.

(** A successful read of a non-empty chunk leaves less to read. *)
Lemma fo_read_shrinks (n : Z) (f f' : pyfile) (c : chunk) :
  fo_read n f = (Ok c, f') -> chunk_is_empty c = false ->
  (data_len f' < data_len f)%nat.
Proof.
  unfold fo_read, data_len.
  destruct (fo_closed f) as [[|]|]; try discriminate;
    (destruct (fo_fault f) as [[[|k] e]|]; try discriminate);
    (destruct (fo_data f) as [b|t];
     [destruct (take_prefix n b) as [hd tl] eqn:E
     |destruct (take_prefix n t) as [hd tl] eqn:E]);
    intros [= <- <-]; simpl; intros Hne;
    apply take_prefix_app in E; subst;
    rewrite length_app; destruct hd; simpl in *; try discriminate; lia.
Qed.

(** More fuel than there are items to read is always enough, and the result
    does not depend on how much more. *)
Lemma read_chunks_fuel (chunk_size : Z) (fuel1 : nat) :
  forall fuel2 f, (data_len f < fuel1)%nat -> (data_len f < fuel2)%nat ->
    read_chunks fuel1 chunk_size f = read_chunks fuel2 chunk_size f /\
    snd (fst (read_chunks fuel1 chunk_size f)) <> OutOfFuel.
Proof.
  induction fuel1 as [|fuel1 IH]; intros fuel2 f H1 H2; [lia|].
  destruct fuel2 as [|fuel2]; [lia|]. simpl.
  destruct (fo_read chunk_size f) as [[c|e] f'] eqn:E.
  - destruct (chunk_is_empty c) eqn:Hc.
    + split; [reflexivity | discriminate].
    + pose proof (fo_read_shrinks _ _ _ _ E Hc) as Hs.
      destruct (IH fuel2 f') as [Heq Hne]; [lia | lia |].
      rewrite <- Heq.
      destruct (read_chunks fuel1 chunk_size f') as [[cs e'] f''].
      split; [reflexivity | exact Hne].
  - split; [reflexivity | discriminate].
Qed.

Lemma read_chunks_total (chunk_size : Z) (f : pyfile) :
  snd (fst (read_chunks (S (data_len f)) chunk_size f)) <> OutOfFuel.
Proof. apply (read_chunks_fuel chunk_size _ (S (data_len f))); lia. Qed.

Lemma reads_from_unfold (chunk_size : Z) (f : pyfile) :
  reads_from chunk_size f =
  match fo_read chunk_size f with
  | (Raise e, _) => [QExc e]
  | (Ok c, f') =>
    if chunk_is_empty c then [QNone] else QChunk c :: reads_from chunk_size f'
  end.
Proof.
  unfold reads_from at 1. simpl.
  destruct (fo_read chunk_size f) as [[c|e] f'] eqn:E; [|reflexivity].
  destruct (chunk_is_empty c) eqn:Hc; [reflexivity|].
  pose proof (fo_read_shrinks _ _ _ _ E Hc) as Hs.
  unfold reads_from.
  destruct (read_chunks_fuel chunk_size (data_len f) (S (data_len f')) f') as [-> _];
    [lia | lia |].
  destruct (read_chunks (S (data_len f')) chunk_size f') as [[cs e'] f''].
  reflexivity.
Qed.

(** ** The buffered-threaded source *)

Lemma terminal_not_chunk (e : ending) (c : chunk) : terminal e <> QChunk c.
Proof. destruct e; discriminate. Qed.

(** A sequence of chunks followed by anything, read against a sequence of
    chunks closed by its terminal item. *)
Lemma chunks_prefix (t0 : item) (y : list chunk) :
  (forall c, t0 <> QChunk c) ->
  forall cs rest,
    (map QChunk y ++ rest)%list = (map QChunk cs ++ [t0])%list ->
    exists tl, cs = (y ++ tl)%list /\ rest = (map QChunk tl ++ [t0])%list.
Proof.
  intros Ht. induction y as [|a y IH]; intros cs rest H; simpl in *.
  - exists cs. now split.
  - destruct cs as [|c cs]; simpl in *.
    + injection H as H1 H2. symmetry in H1. now apply Ht in H1.
    + injection H as H1 H2. subst c.
      destruct (IH cs rest H2) as (tl & -> & ->).
      exists tl. now split.
Qed.

Lemma chunks_then_terminal (t0 t : item) (tl : list chunk) (rest : list item) :
  (forall c, t <> QChunk c) ->
  t :: rest = (map QChunk tl ++ [t0])%list ->
  tl = [] /\ t = t0 /\ rest = [].
Proof.
  intros Ht H. destruct tl as [|c tl]; simpl in H.
  - injection H as -> ->. auto.
  - injection H as H1 _. now apply Ht in H1.
Qed.

Lemma history_inv_init (chunk_size : Z) (f : pyfile) :
  history_inv chunk_size f (b_init f).
Proof. split; [reflexivity | discriminate]. Qed.

Lemma history_inv_step (chunk_size : Z) (f0 : pyfile) (s s' : bstate) :
  history_inv chunk_size f0 s -> step chunk_size s s' ->
  history_inv chunk_size f0 s'.
Proof.
  intros [Hh Hp] Hstep. unfold history_inv.
  destruct Hstep as [s s' H | s s' H]; destruct s as [f pr q y co].
  - unfold producer_step in H. simpl in H. destruct pr as [|x| |x0].
    + unfold future in Hh; simpl in Hh. rewrite reads_from_unfold in Hh.
      destruct (fo_read chunk_size f) as [[c|e] f'].
      * injection H as <-. split; [|discriminate].
        unfold future, consumed in *; simpl in *.
        destruct (chunk_is_empty c); exact Hh.
      * injection H as <-. split; [|discriminate]. exact Hh.
    + destruct (length q <? queue_size)%nat; [|discriminate].
      injection H as <-. split; [|destruct x; discriminate].
      unfold future, consumed in *; simpl in *.
      rewrite <- Hh. destruct x; simpl; now rewrite <- !app_assoc.
    + discriminate.
    + discriminate.
  - unfold consumer_step in H. simpl in H.
    destruct co; try discriminate.
    destruct q as [|[c| |e] q]; try discriminate; injection H as <-;
      (split; [|exact Hp]); unfold future, consumed in *; simpl in *;
      rewrite <- Hh; rewrite ?map_app, ?app_nil_r, <- ?app_assoc; reflexivity.
Qed.

Lemma history_inv_steps (chunk_size : Z) (f : pyfile) (n : nat) (s : bstate) :
  steps chunk_size n (b_init f) s -> history_inv chunk_size f s.
Proof.
  intros H. remember (b_init f) as s0 eqn:E.
  induction H as [s|n s s' s'' H IH Hs].
  - subst. apply history_inv_init.
  - eapply history_inv_step; [apply IH; exact E | exact Hs].
Qed.

(** Every action uses up potential, so that the threads cannot go on for
    ever. *)
Lemma step_potential (chunk_size : Z) (s s' : bstate) :
  step chunk_size s s' -> (potential s' < potential s)%nat.
Proof.
  intros [s0 s1 H | s0 s1 H]; destruct s0 as [f pr q y co].
  - unfold producer_step in H; simpl in H. destruct pr as [|x| |x0]; try discriminate.
    + destruct (fo_read chunk_size f) as [[c|e] f'] eqn:E.
      * injection H as <-. unfold potential, producer_potential; simpl.
        destruct (chunk_is_empty c) eqn:Hc; [lia|].
        pose proof (fo_read_shrinks _ _ _ _ E Hc). lia.
      * injection H as <-. unfold potential, producer_potential; simpl. lia.
    + destruct (length q <? queue_size)%nat; [|discriminate].
      injection H as <-. unfold potential, producer_potential; simpl.
      rewrite length_app; simpl. destruct x; simpl; lia.
  - unfold consumer_step in H; simpl in H. destruct co; try discriminate.
    destruct q as [|[c| |e] q]; try discriminate; injection H as <-;
      unfold potential, producer_potential; simpl; lia.
Qed.

Lemma steps_potential (chunk_size : Z) (n : nat) (s s' : bstate) :
  steps chunk_size n s s' -> (n + potential s' <= potential s)%nat.
Proof.
  induction 1 as [s|n s s' s'' H IH Hs]; [lia|].
  apply step_potential in Hs. lia.
Qed.

Lemma steps_prepend (chunk_size : Z) (n : nat) (s s1 s2 : bstate) :
  step chunk_size s s1 -> steps chunk_size n s1 s2 -> steps chunk_size (S n) s s2.
Proof.
  intros H1 H2. induction H2 as [s1|n s1 s' s'' H IH Hs].
  - eapply steps_next; [apply steps_refl | exact H1].
  - eapply steps_next; [apply IH; exact H1 | exact Hs].
Qed.

(** The schedule of [run] is one of the interleavings and, with fuel for the
    whole potential, it stops only when neither thread can act. *)
Lemma run_steps (chunk_size : Z) (fuel : nat) :
  forall s, exists n, steps chunk_size n s (run fuel chunk_size s).
Proof.
  induction fuel as [|fuel IH]; intros s; simpl.
  - exists 0%nat. apply steps_refl.
  - destruct (consumer_step s) as [s'|] eqn:Ec.
    + destruct (IH s') as [n Hn]. exists (S n).
      eapply steps_prepend; [apply step_consumer; exact Ec | exact Hn].
    + destruct (producer_step chunk_size s) as [s'|] eqn:Ep.
      * destruct (IH s') as [n Hn]. exists (S n).
        eapply steps_prepend; [apply step_producer; exact Ep | exact Hn].
      * exists 0%nat. apply steps_refl.
Qed.

Lemma run_stuck (chunk_size : Z) (fuel : nat) :
  forall s, (potential s <= fuel)%nat -> stuck chunk_size (run fuel chunk_size s).
Proof.
  induction fuel as [|fuel IH]; intros s Hp; simpl.
  - destruct (producer_step chunk_size s) as [s'|] eqn:Ep.
    + pose proof (step_potential _ _ _ (step_producer _ _ _ Ep)). lia.
    + destruct (consumer_step s) as [s'|] eqn:Ec.
      * pose proof (step_potential chunk_size _ _ (step_consumer _ _ _ Ec)). lia.
      * now split.
  - destruct (consumer_step s) as [s'|] eqn:Ec.
    + apply IH. pose proof (step_potential chunk_size _ _ (step_consumer _ _ _ Ec)). lia.
    + destruct (producer_step chunk_size s) as [s'|] eqn:Ep.
      * apply IH. pose proof (step_potential _ _ _ (step_producer _ _ _ Ep)). lia.
      * now split.
Qed.

(** What the invariant says of the consumer. *)
Lemma history_inv_consumer (chunk_size : Z) (f : pyfile) (s : bstate)
      (cs : list chunk) (e : ending) (f' : pyfile) :
  read_chunks (S (data_len f)) chunk_size f = (cs, e, f') ->
  history_inv chunk_size f s ->
  (exists tl, cs = (b_yielded s ++ tl)%list) /\
  (forall x, b_consumer s = CRaised x -> e = Failed x /\ b_yielded s = cs) /\
  (b_consumer s = CFinished -> e = Exhausted /\ b_yielded s = cs) /\
  (b_consumer s = CRunning -> exists s', step chunk_size s s').
Proof.
  intros Hr [Hh Hp].
  pose proof (read_chunks_total chunk_size f) as Htot. rewrite Hr in Htot. simpl in Htot.
  unfold reads_from in Hh. rewrite Hr in Hh. unfold items_of, consumed in Hh.
  rewrite <- app_assoc in Hh.
  apply chunks_prefix in Hh; [|intros c; apply terminal_not_chunk].
  destruct Hh as (tl & Hcs & Hrest).
  split; [now exists tl|].
  destruct s as [fs pr q y co]; simpl in *.
  repeat split.
  - subst co. simpl in Hrest.
    apply chunks_then_terminal in Hrest; [|discriminate].
    destruct Hrest as (-> & Ht & _). destruct e; simpl in Ht; try discriminate.
    congruence.
  - subst co. simpl in Hrest.
    apply chunks_then_terminal in Hrest; [|discriminate].
    destruct Hrest as (-> & Ht & _). now rewrite app_nil_r in Hcs.
  - subst co. simpl in Hrest.
    apply chunks_then_terminal in Hrest; [|discriminate].
    destruct Hrest as (-> & Ht & _). destruct e; simpl in Ht; try discriminate.
    + reflexivity.
    + now contradiction Htot.
  - subst co. simpl in Hrest.
    apply chunks_then_terminal in Hrest; [|discriminate].
    destruct Hrest as (-> & Ht & _). now rewrite app_nil_r in Hcs.
  - intros ->. simpl in Hrest.
    destruct q as [|x q].
    + destruct pr as [|x| |x0].
      * destruct (fo_read chunk_size fs) as [[c|e0] f1] eqn:E;
          eexists; apply step_producer; unfold producer_step; simpl;
          rewrite E; reflexivity.
      * eexists. apply step_producer. unfold producer_step; simpl. reflexivity.
      * unfold future in Hrest; simpl in Hrest. destruct tl; discriminate.
      * now contradiction (Hp x0).
    + destruct x; eexists; apply step_consumer; unfold consumer_step; simpl;
        reflexivity.
Qed.

Lemma stuck_no_step (chunk_size : Z) (s s' : bstate) :
  stuck chunk_size s -> step chunk_size s s' -> False.
Proof.
  intros [Hp Hc] H. inversion H; congruence.
Qed.

Lemma reachable_errors_surface (chunk_size : Z) (f : pyfile) (n : nat) (s : bstate) :
  steps chunk_size n (b_init f) s -> errors_surface chunk_size f n s.
Proof.
  intros Hsteps.
  pose proof (history_inv_steps _ _ _ _ Hsteps) as Hinv.
  destruct (read_chunks (S (data_len f)) chunk_size f) as [[cs e] f'] eqn:Hr.
  pose proof (read_chunks_total chunk_size f) as Htot. rewrite Hr in Htot; simpl in Htot.
  destruct (history_inv_consumer _ _ _ _ _ _ Hr Hinv) as (Hpre & Hraise & Hfin & Hrun).
  exists cs, e, f'. split; [exact Hr|]. split; [exact Htot|].
  split; [|split; [apply Hinv|]].
  { destruct Hinv as [Hh _]. unfold reads_from in Hh. now rewrite Hr in Hh. }
  split; [exact Hpre|]. split; [exact Hraise|]. split; [exact Hfin|].
  split; [exact Hrun|]. split.
  - intros Hstuck. destruct (b_consumer s) as [| |x] eqn:Hc.
    + destruct (Hrun eq_refl) as [s' Hs']. now destruct (stuck_no_step _ _ _ Hstuck Hs').
    + destruct (Hfin eq_refl) as [-> ->]. now split.
    + destruct (Hraise x eq_refl) as [-> ->]. now split.
  - pose proof (steps_potential _ _ _ _ Hsteps). lia.
Qed.

(** C5: in the buffered-threaded path, under every interleaving of the
    producer thread and the consumer, a failing read is caught in the
    producer, which puts the exception object in the queue and exits without
    raising; nothing put is lost or reordered; the consumer raises exactly
    that exception after yielding exactly the chunks read before the
    failure; the sentinel put after an empty read ends the sequence; every
    other value is yielded as a chunk; the threads cannot block each other
    while the consumer runs, and they come to an end. *)
Theorem C5_buffered_errors_reach_consumer :
  forall chunk_size f n s,
    steps chunk_size n (b_init f) s -> errors_surface chunk_size f n s.
Proof. exact reachable_errors_surface. Qed.

Ltac run_threads :=
  lazymatch goal with
  | |- steps _ O _ _ => apply steps_refl
  | |- steps _ (S _) _ _ =>
    eapply steps_next;
    [ run_threads
    | first [ apply step_consumer; reflexivity | apply step_producer; reflexivity ] ]
  end.

Lemma C5_buffered_errors_reach_consumer_witness :
  exists s, steps 2 6 (b_init faulty_stream) s /\
            b_consumer s = CRaised (OSError 5) /\
            b_yielded s = [Bytes [104; 105]] /\
            errors_surface 2 faulty_stream 6 s.
Proof.
  eexists. split; [run_threads|]. split; [reflexivity|]. split; [reflexivity|].
  apply C5_buffered_errors_reach_consumer. run_threads.
Defined.

(** The generator [_buffered_chunk_iterator] delivers the chunks of the
    successive reads and ends as they end. *)
Lemma buffered_iterator_spec env r chunk_size r1 f cs e f' :
  _ensure_file_open env r = Ok (r1, f) ->
  read_chunks (S (data_len f)) chunk_size f = (cs, e, f') ->
  exists f2, _buffered_chunk_iterator env r chunk_size =
             (cs, e, set_file_obj r1 (Some f2)).
Proof.
  intros Ho Hr. unfold _buffered_chunk_iterator. rewrite Ho.
  set (s := run (potential (b_init f)) chunk_size (b_init f)).
  destruct (run_steps chunk_size (potential (b_init f)) (b_init f)) as [n Hn].
  fold s in Hn.
  destruct (reachable_errors_surface _ _ _ _ Hn)
    as (cs' & e' & f'' & Hr' & Htot & _ & _ & _ & _ & _ & _ & Hstuck & _).
  rewrite Hr in Hr'. injection Hr' as <- <- <-.
  destruct Hstuck as [Hc Hy]; [apply run_stuck; lia|].
  exists (b_file s). rewrite Hy, Hc.
  destruct e; try reflexivity. now contradiction Htot.
Qed.

(** ** Splitting into lines *)

Lemma split_nl_nonempty (s : str) : split_nl s <> [].
Proof.
  destruct s as [|c s]; simpl; [discriminate|].
  destruct (c =? NL); [discriminate|]. destruct (split_nl s); discriminate.
Qed.

Lemma split_nl_cons_other (c : Z) (s : str) (p : str) (ps : list str) :
  (c =? NL) = false -> split_nl s = p :: ps -> split_nl (c :: s) = (c :: p) :: ps.
Proof. intros Hc Hs. simpl. now rewrite Hc, Hs. Qed.

(** Splitting a text in two pieces: the last part of the first piece goes on
    into the second. *)
Lemma split_nl_app (a b : str) :
  split_nl (a ++ b) =
  (removelast (split_nl a) ++ split_nl (last (split_nl a) [] ++ b))%list.
Proof.
  induction a as [|c a IH].
  - reflexivity.
  - change ((c :: a) ++ b)%list with (c :: (a ++ b))%list.
    destruct (c =? NL) eqn:Hc.
    + simpl. rewrite Hc.
      destruct (split_nl a) as [|p ps] eqn:Ha; [now destruct (split_nl_nonempty a)|].
      rewrite IH. reflexivity.
    + destruct (split_nl a) as [|p ps] eqn:Ha; [now destruct (split_nl_nonempty a)|].
      rewrite (split_nl_cons_other c a p ps Hc Ha).
      destruct ps as [|p2 ps].
      * simpl in IH. simpl. now rewrite IH.
      * rewrite (split_nl_cons_other c (a ++ b) p
                   (removelast (p2 :: ps) ++ split_nl (last (p2 :: ps) [] ++ b)) Hc).
        -- reflexivity.
        -- rewrite IH. reflexivity.
Qed.

Lemma split_nl_snoc_nl (t : str) : split_nl (t ++ [NL]) = (split_nl t ++ [[]])%list.
Proof.
  induction t as [|c t IH]; [reflexivity|].
  change ((c :: t) ++ [NL])%list with (c :: (t ++ [NL]))%list.
  simpl. rewrite IH. destruct (c =? NL); [reflexivity|].
  destruct (split_nl t) as [|p ps] eqn:Ht; [now destruct (split_nl_nonempty t)|].
  reflexivity.
Qed.

Lemma split_nl_no_nl (s : str) : has_nl s = false -> split_nl s = [s].
Proof.
  induction s as [|c s IH]; [reflexivity|].
  unfold has_nl in *. simpl. intros H. apply orb_false_iff in H as [Hc Hs].
  rewrite Hc, (IH Hs). reflexivity.
Qed.

Lemma with_terminators_split (t : str) :
  with_terminators (split_nl t) = (t ++ [NL])%list.
Proof.
  unfold with_terminators. induction t as [|c t IH]; [reflexivity|].
  simpl. destruct (c =? NL) eqn:Hc.
  - apply Z.eqb_eq in Hc. subst c. simpl. now rewrite IH.
  - destruct (split_nl t) as [|p ps] eqn:Ht; [now destruct (split_nl_nonempty t)|].
    simpl in *. now rewrite IH.
Qed.

Lemma with_terminators_join (lines : list str) :
  lines <> [] -> with_terminators lines = (join_nl lines ++ [NL])%list.
Proof.
  unfold with_terminators.
  induction lines as [|l rest IH]; [congruence|]. intros _.
  destruct rest as [|l2 rest].
  - simpl. now rewrite app_nil_r.
  - change (join_nl (l :: l2 :: rest)) with (l ++ NL :: join_nl (l2 :: rest))%list.
    change (concat (map (fun l0 => l0 ++ [NL]) (l :: l2 :: rest)))%list
      with ((l ++ [NL]) ++ concat (map (fun l0 => l0 ++ [NL]) (l2 :: rest)))%list.
    rewrite IH by discriminate. rewrite <- !app_assoc. reflexivity.
Qed.

(** The lines of a text give the text back: with a terminator after every
    line when the text is empty or ends with one, between the lines
    otherwise. *)
Lemma lines_of_text_roundtrip (text : str) :
  (last (split_nl text) [] = [] /\ with_terminators (lines_of_text text) = text) \/
  (last (split_nl text) [] <> [] /\ join_nl (lines_of_text text) = text).
Proof.
  unfold lines_of_text.
  pose proof (with_terminators_split text) as Hw.
  pose proof (split_nl_nonempty text) as Hne.
  destruct (last (split_nl text) []) as [|c l] eqn:Hl.
  - left. split; [reflexivity|].
    assert (Hs : split_nl text = (removelast (split_nl text) ++ [last (split_nl text) []])%list)
      by now apply app_removelast_last.
    rewrite Hl in Hs. rewrite Hs in Hw at 1.
    unfold with_terminators in *. rewrite map_app, concat_app in Hw. simpl in Hw.
    now apply app_inv_tail in Hw.
  - right. split; [discriminate|].
    rewrite (with_terminators_join _ Hne) in Hw. now apply app_inv_tail in Hw.
Qed.

Lemma lines_of_text_terminated (t : str) :
  lines_of_text (t ++ [NL]) = split_nl t.
Proof.
  unfold lines_of_text. rewrite split_nl_snoc_nl, last_last, removelast_last.
  reflexivity.
Qed.

Lemma lines_of_text_fragment (t frag : str) :
  frag <> [] -> has_nl frag = false ->
  lines_of_text ((t ++ [NL]) ++ frag) = (split_nl t ++ [frag])%list /\
  lines_of_text frag = [frag].
Proof.
  intros Hne Hnl. unfold lines_of_text.
  rewrite split_nl_app, split_nl_snoc_nl, last_last, removelast_last. simpl.
  rewrite (split_nl_no_nl frag Hnl), last_last. simpl.
  destruct frag; [congruence|]. split; reflexivity.
Qed.

(** ** The decoder and line splitter *)

Lemma track_lines_counts (lines : list str) :
  forall r, _line_count (track_lines r lines) = _line_count r + Z.of_nat (length lines) /\
            _bytes_processed (track_lines r lines) = _bytes_processed r.
Proof.
  unfold track_lines.
  induction lines as [|l lines IH]; intros r.
  - simpl. split; [lia | reflexivity].
  - cbn [fold_left]. destruct (IH (_track_line r)) as [H1 H2].
    rewrite H1, H2. cbn [length]. simpl. split; [lia | reflexivity].
Qed.

Lemma split_nl_parts_no_nl (s : str) : Forall (fun p => has_nl p = false) (split_nl s).
Proof.
  induction s as [|c s IH]; simpl.
  - constructor; [reflexivity | constructor].
  - destruct (c =? NL) eqn:Hc.
    + constructor; [reflexivity | exact IH].
    + destruct (split_nl s) as [|p ps]; [repeat constructor; simpl; now rewrite Hc|].
      inversion IH as [|? ? Hp Hps]; subst.
      constructor; [|exact Hps]. unfold has_nl in *. simpl. now rewrite Hc, Hp.
Qed.

Lemma split_nl_last_no_nl (s : str) : has_nl (last (split_nl s) []) = false.
Proof.
  pose proof (split_nl_parts_no_nl s) as H.
  induction H as [|p ps Hp Hps IH]; [reflexivity|].
  destruct ps as [|p2 ps]; [exact Hp | exact IH].
Qed.

Section LineSplitterFacts.

Variable decode : chunk -> result str.

(** When every chunk decodes, the loop yields all the parts of the decoded
    text but the last, which it keeps in [text_buffer]. *)
Lemma lines_loop_ok (chunks : list chunk) :
  forall buf r text,
    has_nl buf = false ->
    decoded_text decode chunks = Ok text ->
    exists ls buf' r',
      lines_loop decode chunks buf r = (ls, r', Ok buf') /\
      (ls ++ [buf'])%list = split_nl (buf ++ text) /\
      _line_count r' = _line_count r + Z.of_nat (length ls) /\
      _bytes_processed r' = _bytes_processed r + total_len chunks.
Proof.
  induction chunks as [|c rest IH]; intros buf r text Hbuf Hd; simpl in Hd.
  - injection Hd as <-. exists [], buf, r. simpl. rewrite app_nil_r.
    rewrite (split_nl_no_nl buf Hbuf). repeat split; lia.
  - cbn [lines_loop total_len fold_right]. fold (total_len rest).
    destruct (chunk_is_empty c) eqn:Hc.
    + destruct (IH buf r text Hbuf Hd) as (ls & buf' & r' & Hl & Hs & Hn & Hb).
      exists ls, buf', r'. repeat split; try assumption.
      assert (chunk_len c = 0) by (destruct c as [[|]|[|]]; simpl in *; congruence).
      lia.
    + destruct (decode c) as [t|e]; [|discriminate].
      destruct (decoded_text decode rest) as [u|e] eqn:Hu; [|discriminate].
      injection Hd as <-.
      destruct (has_nl (buf ++ t)) eqn:Hnl.
      * destruct (IH (last (split_nl (buf ++ t)) [])
                     (track_lines
                        (set_counts r (_line_count r) (_bytes_processed r + chunk_len c))
                        (removelast (split_nl (buf ++ t))))
                     u (split_nl_last_no_nl _) eq_refl)
          as (ls & buf' & r' & Hl & Hs & Hn & Hb).
        rewrite Hl. eexists _, buf', r'. split; [reflexivity|].
        destruct (track_lines_counts (removelast (split_nl (buf ++ t)))
                    (set_counts r (_line_count r) (_bytes_processed r + chunk_len c)))
          as [Ht1 Ht2].
        rewrite Ht1 in Hn. rewrite Ht2 in Hb. simpl in Hn, Hb.
        repeat split.
        -- rewrite <- app_assoc, Hs, app_assoc. symmetry. apply split_nl_app.
        -- rewrite Hn, length_app. lia.
        -- rewrite Hb. lia.
      * destruct (IH (buf ++ t)%list
                     (set_counts r (_line_count r) (_bytes_processed r + chunk_len c))
                     u Hnl eq_refl)
          as (ls & buf' & r' & Hl & Hs & Hn & Hb).
        exists ls, buf', r'. simpl in Hn, Hb.
        repeat split; try assumption.
        -- now rewrite app_assoc.
        -- rewrite Hb. lia.
Qed.

(** A chunk sequence that decodes and ends normally gives the lines of
    the decoded text. *)
Lemma read_lines_ok (chunks : list chunk) (r : reader) (text : str) :
  decoded_text decode chunks = Ok text ->
  exists r',
    _read_lines_from_chunks decode chunks Exhausted r =
      (lines_of_text text, Exhausted, r') /\
    _line_count r' = _line_count r + Z.of_nat (length (lines_of_text text)) /\
    _bytes_processed r' = _bytes_processed r + total_len chunks.
Proof.
  intros Hd.
  destruct (lines_loop_ok chunks [] r text eq_refl Hd)
    as (ls & buf' & r' & Hl & Hs & Hn & Hb).
  unfold _read_lines_from_chunks. rewrite Hl. simpl in Hs.
  unfold lines_of_text. rewrite <- Hs, last_last, removelast_last.
  destruct buf' as [|x buf'].
  - exists r'. repeat split; assumption.
  - exists (_track_line r'). split; [reflexivity|]. simpl.
    rewrite Hn, Hb, length_app. simpl. split; lia.
Qed.

End LineSplitterFacts.

(** ** Reading a file that does not fail *)

Lemma take_prefix_nil {A : Type} (n : Z) (l tl : list A) :
  n <> 0 -> take_prefix n l = ([], tl) -> l = [].
Proof.
  unfold take_prefix. intros Hn. destruct (Z.ltb_spec n 0).
  - now intros [= -> _].
  - destruct l as [|x l]; [reflexivity|]. simpl.
    destruct (Z.leb_spec n 0); [lia|].
    destruct (split_at (n - 1) l). discriminate.
Qed.

(** With a nonzero chunk size, the reads cut the content into non-empty
    pieces and then see the end. *)
Lemma read_chunks_clean (chunk_size : Z) (fuel : nat) :
  chunk_size <> 0 ->
  forall f content,
    fo_closed f <> Some true -> fo_fault f = None -> fo_data f = Bytes content ->
    (length content < fuel)%nat ->
    exists pieces f',
      read_chunks fuel chunk_size f = (map Bytes pieces, Exhausted, f') /\
      concat pieces = content /\
      fo_close_raises f' = fo_close_raises f.
Proof.
  intros Hcs. induction fuel as [|fuel IH]; intros f content Hcl Hfl Hda Hlen; [lia|].
  simpl. unfold fo_read. rewrite Hfl, Hda.
  destruct (fo_closed f) as [[|]|] eqn:Hc; [congruence| |];
    (destruct (take_prefix chunk_size content) as [hd tl] eqn:E;
     pose proof (take_prefix_app _ _ _ _ E) as Happ;
     destruct hd as [|x hd];
     [ apply take_prefix_nil in E; [|exact Hcs]; subst content;
       exists [], (set_data f (Bytes tl) None); simpl; repeat split
     | destruct (IH (set_data f (Bytes tl) None) tl) as (pieces & f' & Hr & Hcat & Hraise);
       [ simpl; rewrite Hc; discriminate | reflexivity | reflexivity
       | subst content; rewrite length_app in Hlen; simpl in Hlen; lia | ];
       cbn [chunk_is_empty]; rewrite Hr;
       exists ((x :: hd) :: pieces), f'; simpl; repeat split;
       [ now rewrite Hcat | exact Hraise ] ]).
Qed.

Lemma total_len_bytes (pieces : list bytes) :
  total_len (map Bytes pieces) = Z.of_nat (length (concat pieces)).
Proof.
  induction pieces as [|p ps IH]; [reflexivity|].
  cbn [map total_len fold_right concat]. fold (total_len (map Bytes ps)).
  rewrite IH, length_app. simpl. lia.
Qed.

(** ** Codecs that give the octets back *)

Lemma utf8_decode_ascii (errs : error_policy) (fuel : nat) :
  forall s, (length s <= fuel)%nat -> Forall (fun b => b < 128) s ->
            Utf8.decode_loop fuel errs s = Ok s.
Proof.
  induction fuel as [|fuel IH]; intros s Hlen Hs.
  - destruct s; [reflexivity | simpl in Hlen; lia].
  - destruct s as [|b t]; [reflexivity|].
    inversion Hs as [|? ? Hb Ht]; subst.
    cbn [Utf8.decode_loop Utf8.scan_head].
    apply Z.ltb_lt in Hb. rewrite Hb. cbn [skipn].
    rewrite IH; [reflexivity | simpl in Hlen; lia | exact Ht].
Qed.

Lemma chunk_decode_ascii (errs : error_policy) (content c : bytes) :
  Forall (fun b => b < 128) content -> incl c content ->
  chunk_decode utf_8 errs (Bytes c) = Ok c.
Proof.
  intros Hc Hin. simpl. unfold Utf8.decode. apply utf8_decode_ascii; [lia|].
  apply Forall_forall. intros b Hb. rewrite Forall_forall in Hc. auto.
Qed.

Lemma chunk_decode_latin1 (errs : error_policy) (c : bytes) :
  chunk_decode latin_1 errs (Bytes c) = Ok c.
Proof. reflexivity. Qed.

Lemma decoded_text_identity (decode : chunk -> result str) (pieces : list bytes) :
  (forall c, In c pieces -> decode (Bytes c) = Ok c) ->
  decoded_text decode (map Bytes pieces) = Ok (concat pieces).
Proof.
  induction pieces as [|p ps IH]; intros H; [reflexivity|].
  cbn [map decoded_text concat].
  rewrite IH by (intros c Hc; apply H; now right).
  rewrite (H p) by now left.
  destruct (chunk_is_empty (Bytes p)) eqn:E; [|reflexivity].
  destruct p; [reflexivity | discriminate].
Qed.

Lemma incl_concat_piece {A : Type} (pieces : list (list A)) (c : list A) :
  In c pieces -> incl c (concat pieces).
Proof.
  intros Hin x Hx. apply in_concat. now exists c.
Qed.

(** ** The facade *)

Lemma get_chunk_size_nonzero (r : reader) : _get_chunk_size r <> 0.
Proof.
  unfold _get_chunk_size.
  destruct (user_chunk_size r) as [n|].
  - destruct (Z.eqb_spec n 0); [|assumption].
    destruct (_compression_type r); discriminate.
  - destruct (_compression_type r); discriminate.
Qed.

Lemma close_keeps_counts (r r' : reader) :
  close r = Ok r' ->
  _line_count r' = _line_count r /\ _bytes_processed r' = _bytes_processed r /\
  _total_time r' = _total_time r /\ _mode r' = _mode r /\ file_path r' = file_path r.
Proof.
  unfold close. destruct (file_obj r) as [f|].
  - destruct (negb _).
    + destruct (fo_close f) as [[u|e] f']; intros [= <-]; simpl; repeat split.
    + intros [= <-]; simpl; repeat split.
  - intros [= <-]; simpl; repeat split.
Qed.

Lemma ensure_file_open_set_start env r t m :
  _ensure_file_open env (set_start r t m) =
  match _ensure_file_open env r with
  | Ok (r1, f) => Ok (set_start r1 t m, f)
  | Raise e => Raise e
  end.
Proof.
  unfold _ensure_file_open. simpl.
  destruct (file_obj r); [reflexivity|].
  destruct (file_path r) as [p|n]; [|reflexivity].
  destruct (os_open env p); reflexivity.
Qed.

(** A complete iteration over a file that does not fail, with a codec that
    gives the octets of the content back: the lines are those of the
    content, whatever the chunk size and the path taken. *)
Lemma iterate_identity env t0 t1 r f content :
  source_handle env r = Ok f -> clean f -> fo_data f = Bytes content ->
  (forall c, incl c content -> chunk_decode (encoding r) (errors r) (Bytes c) = Ok c) ->
  exists r',
    iterate env t0 t1 r = (lines_of_text content, Exhausted, r') /\
    _line_count r' = _line_count r + Z.of_nat (length (lines_of_text content)) /\
    _bytes_processed r' = _bytes_processed r + Z.of_nat (length content) /\
    _total_time r' = (t1 - t0)%Q.
Proof.
  intros Hsrc (Hcl & Hfl & Hcr) Hda Hdec.
  assert (Hlen : data_len f = length content) by (unfold data_len; now rewrite Hda).
  destruct (read_chunks_clean (_get_chunk_size r) (S (data_len f))
              (get_chunk_size_nonzero r) f content Hcl Hfl Hda)
    as (pieces & f' & Hr & Hcat & Hraise); [lia|].
  assert (Htext : decoded_text (chunk_decode (encoding r) (errors r)) (map Bytes pieces)
                  = Ok content).
  { rewrite <- Hcat. apply decoded_text_identity. intros c Hc.
    apply Hdec. rewrite <- Hcat. now apply incl_concat_piece. }
  unfold iterate. unfold source_handle in Hsrc.
  destruct (negb (compression_eqb (_compression_type r) COMPRESSION_NONE)) eqn:Hcomp.
  - unfold _compressed_chunk_iterator. cbn [_compression_type file_path set_start].
    destruct (opener_of (_compression_type r)) as [op|]; [|discriminate].
    destruct (file_path r) as [p|n]; [|discriminate].
    rewrite Hsrc, Hr. unfold fo_close. rewrite Hraise, Hcr.
    destruct (read_lines_ok (chunk_decode (encoding r) (errors r)) (map Bytes pieces)
                (set_start r t0 "compressed") content Htext) as (r2 & Hl & Hn & Hb).
    rewrite Hl.
    destruct (close_spec (set_total_time r2 (t1 - t0)%Q)) as (r4 & Hc & _).
    rewrite Hc. exists r4. split; [reflexivity|].
    destruct (close_keeps_counts _ _ Hc) as (K1 & K2 & K3 & _).
    rewrite K1, K2, K3. simpl. rewrite Hn, Hb, total_len_bytes, Hcat. simpl.
    repeat split.
  - destruct (_ensure_file_open env r) as [[r1 f1]|e] eqn:Ho; [|discriminate].
    injection Hsrc as ->.
    assert (Ho' : _ensure_file_open env (set_start r t0 "buffered")
                  = Ok (set_start r1 t0 "buffered", f))
      by (rewrite ensure_file_open_set_start, Ho; reflexivity).
    destruct (buffered_iterator_spec env _ (_get_chunk_size r) _ f _ _ _ Ho' Hr)
      as (f2 & Hbuf).
    rewrite Hbuf.
    destruct (read_lines_ok (chunk_decode (encoding r) (errors r)) (map Bytes pieces)
                (set_file_obj (set_start r1 t0 "buffered") (Some f2)) content Htext)
      as (r2 & Hl & Hn & Hb).
    rewrite Hl.
    destruct (close_spec (set_total_time r2 (t1 - t0)%Q)) as (r4 & Hc & _).
    rewrite Hc. exists r4. split; [reflexivity|].
    destruct (close_keeps_counts _ _ Hc) as (K1 & K2 & K3 & _).
    rewrite K1, K2, K3. simpl. rewrite Hn, Hb, total_len_bytes, Hcat. simpl.
    assert (_line_count r1 = _line_count r /\ _bytes_processed r1 = _bytes_processed r)
      as [E1 E2].
    { unfold _ensure_file_open in Ho. destruct (file_obj r).
      - injection Ho as <- _. now split.
      - destruct (file_path r) as [p|n]; [|discriminate].
        destruct (os_open env p); [|discriminate].
        injection Ho as <- _. now split. }
    rewrite E1, E2. repeat split.
Qed.

Lemma lines_independent_of_chunk_size env1 env2 t0 t1 t0' t1' r1 r2 f1 f2 content :
  source_handle env1 r1 = Ok f1 -> clean f1 -> fo_data f1 = Bytes content ->
  source_handle env2 r2 = Ok f2 -> clean f2 -> fo_data f2 = Bytes content ->
  (forall c, incl c content -> chunk_decode (encoding r1) (errors r1) (Bytes c) = Ok c) ->
  (forall c, incl c content -> chunk_decode (encoding r2) (errors r2) (Bytes c) = Ok c) ->
  fst (iterate env1 t0 t1 r1) = fst (iterate env2 t0' t1' r2).
Proof.
  intros S1 C1 D1 S2 C2 D2 H1 H2.
  destruct (iterate_identity env1 t0 t1 r1 f1 content S1 C1 D1 H1) as (r1' & -> & _).
  destruct (iterate_identity env2 t0' t1' r2 f2 content S2 C2 D2 H2) as (r2' & -> & _).
  reflexivity.
Qed.

(** C7, the code at the failing input: the content is the two octets of
    e-acute, which decode to the single character U+00E9, a non-empty
    fragment without terminator.  Read with chunk size 2 the reader yields
    that fragment as its last line; read with chunk size 1 it yields no line
    at all under [ignore], and a line of two replacement characters under
    [replace].  The other parts of the claim hold at their inputs: a content
    that ends with a terminator gives no empty last line, and a gzip file
    whose decompressed content is x, newline, y, newline gives exactly the
    lines x and y. *)
Theorem C7_fragment_lost_on_split_character :
  bytes_decode utf_8 ignore e_acute = Ok [233] /\
  bytes_decode utf_8 replace e_acute = Ok [233] /\
  has_nl [233] = false /\
  read_all no_files (FileObj (bytes_io e_acute)) (Some 2) utf_8 ignore
    = Ok ([[233]], Exhausted) /\
  read_all no_files (FileObj (bytes_io e_acute)) (Some 1) utf_8 ignore
    = Ok ([], Exhausted) /\
  read_all no_files (FileObj (bytes_io e_acute)) (Some 1) utf_8 replace
    = Ok ([[65533; 65533]], Exhausted) /\
  read_all (one_file [120; 10; 121; 10]) (Path "data.gz") None utf_8 replace
    = Ok ([[120]; [121]], Exhausted) /\
  read_all (one_file [120; 10; 121; 10]) (Path "data.gz") (Some 3) utf_8 replace
    = Ok ([[120]; [121]], Exhausted).
Proof. repeat split; vm_compute; reflexivity. Qed.

(** ** Statistics *)

Lemma positive_not_zero (t : Q) : is_positive t = true -> Qeq_bool t 0 = false.
Proof.
  unfold is_positive. intros H. apply negb_true_iff in H.
  destruct (Qeq_bool t 0) eqn:E; [|reflexivity].
  apply Qeq_bool_iff in E.
  assert (Hle : Qle_bool t 0 = true) by (apply Qle_bool_iff; rewrite E; apply Qle_refl).
  congruence.
Qed.

(** [get_stats] never raises. *)
Lemma get_stats_total (r : reader) : exists st, get_stats r = Ok st.
Proof.
  unfold get_stats.
  assert (H : Qeq_bool (inject_Z (1024 * 1024)) 0 = false) by reflexivity.
  unfold truediv at 1. rewrite H.
  destruct (is_positive (_total_time r)) eqn:Hp.
  - unfold truediv. rewrite (positive_not_zero _ Hp). eexists. reflexivity.
  - eexists. reflexivity.
Qed.

Lemma get_stats_zero (r : reader) :
  _line_count r = 0 -> _bytes_processed r = 0 ->
  exists st, get_stats r = Ok st /\
             st_lines st = 0 /\ st_bytes st = 0 /\
             st_lines_per_s st = 0 /\ st_MB_per_s st == 0.
Proof.
  intros Hl Hb. unfold get_stats. rewrite Hl, Hb.
  assert (H : Qeq_bool (inject_Z (1024 * 1024)) 0 = false) by reflexivity.
  unfold truediv at 1. rewrite H.
  destruct (is_positive (_total_time r)) eqn:Hp.
  - unfold truediv. rewrite (positive_not_zero _ Hp).
    eexists. split; [reflexivity|]. cbn [st_lines st_bytes st_lines_per_s st_MB_per_s].
    repeat split.
  - eexists. split; [reflexivity|]. cbn [st_lines st_bytes st_lines_per_s st_MB_per_s].
    repeat split.
Qed.

(** C8: [get_stats] never raises, whatever the elapsed time (zero, or
    negative after a clock step); and a reader on an empty source yields no
    line and reports 0 lines, 0 bytes, 0 lines per second and 0 MB per
    second. *)
Theorem C8_empty_source :
  (forall r, exists st, get_stats r = Ok st) /\
  (forall env src cs enc errs dbg r f t0 t1,
      init src cs enc errs dbg = Ok r ->
      source_handle env r = Ok f -> clean f -> fo_data f = Bytes [] ->
      exists r' st,
        iterate env t0 t1 r = ([], Exhausted, r') /\
        get_stats r' = Ok st /\
        st_lines st = 0 /\ st_bytes st = 0 /\
        st_lines_per_s st = 0 /\ st_MB_per_s st == 0).
Proof.
  split; [exact get_stats_total|].
  intros env src cs enc errs dbg r f t0 t1 Hinit Hsrc Hclean Hda.
  destruct (init_fields _ _ _ _ _ _ Hinit) as (_ & _ & _ & Hl0 & Hb0 & _).
  destruct (iterate_identity env t0 t1 r f [] Hsrc Hclean Hda) as (r' & Hi & Hl & Hb & _).
  - intros c Hc. destruct c as [|x c]; [|now destruct (Hc x (or_introl eq_refl))].
    destruct (encoding r), (errors r); reflexivity.
  - simpl in Hl, Hb. rewrite Hl0 in Hl. rewrite Hb0 in Hb.
    destruct (get_stats_zero r' Hl Hb) as (st & Hst & Hs).
    exists r', st. split; [exact Hi|]. split; [exact Hst | exact Hs].
Qed.

Lemma C8_empty_source_witness :
  exists r' st,
    iterate (one_file []) 0 0
            (mkReader None utf_8 replace false false 0 0 None 0%Q None
                      (PStr "empty.txt") None COMPRESSION_NONE)
    = ([], Exhausted, r') /\
    get_stats r' = Ok st /\ st_lines st = 0 /\ st_bytes st = 0 /\
    st_lines_per_s st = 0 /\ st_MB_per_s st == 0.
Proof.
  apply (proj2 C8_empty_source (one_file []) (Path "empty.txt") None utf_8 replace false
               _ (mkFile (Some (PStr "empty.txt")) (Some (PStr "rb")) (Some false)
                         (Bytes []) None None) 0%Q 0%Q).
  - reflexivity.
  - reflexivity.
  - repeat split. discriminate.
  - reflexivity.
Defined.

(** ** Characters split at a chunk boundary

    Every chunk is decoded on its own, so that a character whose octets lie
    in two chunks is not decoded as one character. *)

Lemma roundtrip_identity env t0 t1 r f content :
  source_handle env r = Ok f -> clean f -> fo_data f = Bytes content ->
  (forall c, incl c content -> chunk_decode (encoding r) (errors r) (Bytes c) = Ok c) ->
  with_terminators (fst (fst (iterate env t0 t1 r))) = content \/
  join_nl (fst (fst (iterate env t0 t1 r))) = content.
Proof.
  intros Hs Hc Hd Hdec.
  destruct (iterate_identity env t0 t1 r f content Hs Hc Hd Hdec) as (r' & -> & _).
  simpl. destruct (lines_of_text_roundtrip content) as [[_ H]|[_ H]]; auto.
Qed.

(** C1, the code at the failing input: the two octets of e-acute decode to
    U+00E9 and a reader with chunk size 2 yields that line; with chunk size
    1 the octets arrive in two chunks, and the reader yields two
    replacement characters under [replace], raises [UnicodeDecodeError]
    under [strict], and yields nothing under [ignore]. *)
Theorem C1_split_character_is_not_decoded :
  bytes_decode utf_8 replace e_acute = Ok [233] /\
  read_all no_files (FileObj (bytes_io e_acute)) (Some 2) utf_8 replace
    = Ok ([[233]], Exhausted) /\
  read_all no_files (FileObj (bytes_io e_acute)) (Some 1) utf_8 replace
    = Ok ([[65533; 65533]], Exhausted) /\
  read_all no_files (FileObj (bytes_io e_acute)) (Some 1) utf_8 strict
    = Ok ([], Failed (UnicodeDecodeError "utf-8" "unexpected end of data")) /\
  read_all no_files (FileObj (bytes_io e_acute)) (Some 1) utf_8 ignore
    = Ok ([], Exhausted).
Proof. repeat split; vm_compute; reflexivity. Qed.

(** C2, the code at the failing input: the same content read with chunk
    sizes 4 and 5 gives different first lines, because the boundary at 4
    falls inside e-acute. *)
Theorem C2_lines_depend_on_chunk_size :
  read_all no_files (FileObj (bytes_io cafe_ok)) (Some 4) utf_8 replace
    = Ok ([[99; 97; 102; 65533; 65533]; [111; 107]], Exhausted) /\
  read_all no_files (FileObj (bytes_io cafe_ok)) (Some 5) utf_8 replace
    = Ok ([[99; 97; 102; 233]; [111; 107]], Exhausted) /\
  read_all (one_file cafe_ok) (Path "menu.txt") (Some 4) utf_8 replace
    <> read_all (one_file cafe_ok) (Path "menu.txt") (Some 5) utf_8 replace.
Proof.
  split; [vm_compute; reflexivity|]. split; [vm_compute; reflexivity|].
  vm_compute. discriminate.
Qed.

(** C4, the code at the failing input: with chunk size 4 the lines yielded,
    put back together with their terminators (after every line, or between
    the lines only), are not the decoded text of the content. *)
Theorem C4_roundtrip_fails_on_split_character :
  bytes_decode utf_8 replace cafe_ok = Ok [99; 97; 102; 233; 10; 111; 107] /\
  read_all no_files (FileObj (bytes_io cafe_ok)) (Some 4) utf_8 replace
    = Ok ([[99; 97; 102; 65533; 65533]; [111; 107]], Exhausted) /\
  with_terminators [[99; 97; 102; 65533; 65533]; [111; 107]]
    <> [99; 97; 102; 233; 10; 111; 107] /\
  join_nl [[99; 97; 102; 65533; 65533]; [111; 107]]
    <> [99; 97; 102; 233; 10; 111; 107].
Proof.
  split; [vm_compute; reflexivity|]. split; [vm_compute; reflexivity|].
  split; vm_compute; discriminate.
Qed.

(** * Further properties *)

(** ** The line splitter in all its runs *)

Lemma Forall_removelast {A : Type} (P : A -> Prop) (l : list A) :
  Forall P l -> Forall P (removelast l).
Proof.
  induction 1 as [|x l Hx Hl IH]; [constructor|].
  destruct l as [|y l]; [constructor|].
  simpl. constructor; [exact Hx | exact IH].
Qed.

Lemma lines_loop_no_nl (decode : chunk -> result str) (chunks : list chunk) :
  forall buf r,
    has_nl buf = false ->
    Forall (fun l => has_nl l = false) (fst (fst (lines_loop decode chunks buf r))) /\
    (forall b, snd (lines_loop decode chunks buf r) = Ok b -> has_nl b = false).
Proof.
  induction chunks as [|c rest IH]; intros buf r Hbuf; cbn [lines_loop].
  - simpl. split; [constructor | now intros b [= <-]].
  - destruct (chunk_is_empty c); [now apply IH|].
    destruct (decode c) as [t|e]; [|simpl; split; [constructor | discriminate]].
    destruct (has_nl (buf ++ t)) eqn:Hnl; [|now apply IH].
    specialize (IH (last (split_nl (buf ++ t)) [])
                   (track_lines
                      (set_counts r (_line_count r) (_bytes_processed r + chunk_len c))
                      (removelast (split_nl (buf ++ t))))
                   (split_nl_last_no_nl _)).
    destruct (lines_loop decode rest _ _) as [[more r2] res]. simpl in *.
    destruct IH as [IH1 IH2]. split; [|exact IH2].
    apply Forall_app. split; [|exact IH1].
    apply Forall_removelast, split_nl_parts_no_nl.
Qed.

(** X1: no line that the splitter yields contains a terminator, whatever the
    decoder, the chunks and the way the run ends. *)
Theorem X1_lines_have_no_terminator :
  forall decode chunks e r,
    Forall (fun l => has_nl l = false)
           (fst (fst (_read_lines_from_chunks decode chunks e r))).
Proof.
  intros decode chunks e r. unfold _read_lines_from_chunks.
  destruct (lines_loop_no_nl decode chunks [] r eq_refl) as [H1 H2].
  destruct (lines_loop decode chunks [] r) as [[lines r1] [buf|x]]; simpl in *.
  - destruct e; try exact H1.
    destruct buf as [|c buf]; [exact H1|].
    apply Forall_app. split; [exact H1|].
    constructor; [now apply H2 | constructor].
  - exact H1.
Qed.

Lemma lines_loop_skips_empty (decode : chunk -> result str) (chunks : list chunk) :
  forall buf r,
    lines_loop decode (non_empty_chunks chunks) buf r = lines_loop decode chunks buf r.
Proof.
  unfold non_empty_chunks.
  induction chunks as [|c rest IH]; intros buf r; [reflexivity|].
  cbn [filter lines_loop]. destruct (chunk_is_empty c) eqn:Hc; cbn [negb].
  - apply IH.
  - cbn [lines_loop]. rewrite Hc.
    destruct (decode c) as [t|e]; [|reflexivity].
    destruct (has_nl (buf ++ t)); now rewrite IH.
Qed.

(** X2: empty chunks are skipped: they are neither decoded nor counted, so
    that a run gives the same lines, the same ending and the same counters
    with and without them, even when the empty chunk is one that could not
    be decoded. *)
Theorem X2_empty_chunks_are_skipped :
  forall decode chunks e r,
    _read_lines_from_chunks decode (non_empty_chunks chunks) e r =
    _read_lines_from_chunks decode chunks e r.
Proof.
  intros. unfold _read_lines_from_chunks. now rewrite lines_loop_skips_empty.
Qed.

Lemma chunk_len_nonneg (c : chunk) : 0 <= chunk_len c.
Proof. destruct c; simpl; lia. Qed.

Lemma total_len_nonneg (chunks : list chunk) : 0 <= total_len chunks.
Proof.
  induction chunks as [|c rest IH]; simpl; [lia|].
  pose proof (chunk_len_nonneg c). fold (total_len rest). lia.
Qed.

Lemma same_but_counts_refl (r : reader) : same_but_counts r r.
Proof. unfold same_but_counts. now destruct r. Qed.

Lemma same_but_counts_set (r r' : reader) (a b : Z) :
  same_but_counts r r' -> same_but_counts r (set_counts r' a b).
Proof.
  unfold same_but_counts. intros H. rewrite H at 1. reflexivity.
Qed.

Lemma same_but_counts_trans (r1 r2 r3 : reader) :
  same_but_counts r1 r2 -> same_but_counts r2 r3 -> same_but_counts r1 r3.
Proof.
  unfold same_but_counts. intros H1 H2. rewrite H2 at 1. rewrite H1 at 1. reflexivity.
Qed.

Lemma track_lines_same (lines : list str) :
  forall r, same_but_counts r (track_lines r lines).
Proof.
  unfold track_lines. induction lines as [|l lines IH]; intros r.
  - apply same_but_counts_refl.
  - cbn [fold_left]. eapply same_but_counts_trans; [|apply IH].
    unfold _track_line. apply same_but_counts_set, same_but_counts_refl.
Qed.

Lemma lines_loop_counts (decode : chunk -> result str) (chunks : list chunk) :
  forall buf r,
    let '(ls, r', _) := lines_loop decode chunks buf r in
    same_but_counts r r' /\
    _line_count r' = _line_count r + Z.of_nat (length ls) /\
    _bytes_processed r <= _bytes_processed r' <= _bytes_processed r + total_len chunks.
Proof.
  induction chunks as [|c rest IH]; intros buf r.
  - simpl. split; [apply same_but_counts_refl|]. lia.
  - cbn [lines_loop total_len fold_right]. fold (total_len rest).
    pose proof (chunk_len_nonneg c) as Hc. pose proof (total_len_nonneg rest) as Ht.
    destruct (chunk_is_empty c).
    + specialize (IH buf r). destruct (lines_loop decode rest buf r) as [[ls r'] res].
      destruct IH as (H1 & H2 & H3). repeat split; try assumption; lia.
    + destruct (decode c) as [t|e].
      * destruct (has_nl (buf ++ t)).
        -- specialize (IH (last (split_nl (buf ++ t)) [])
                          (track_lines
                             (set_counts r (_line_count r) (_bytes_processed r + chunk_len c))
                             (removelast (split_nl (buf ++ t))))).
           destruct (lines_loop decode rest _ _) as [[more r2] res].
           destruct IH as (H1 & H2 & H3).
           destruct (track_lines_counts (removelast (split_nl (buf ++ t)))
                       (set_counts r (_line_count r) (_bytes_processed r + chunk_len c)))
             as [T1 T2].
           rewrite T1 in H2. rewrite T2 in H3. simpl in H2, H3.
           split; [|split].
           ++ eapply same_but_counts_trans; [|exact H1].
              eapply same_but_counts_trans; [|apply track_lines_same].
              apply same_but_counts_set, same_but_counts_refl.
           ++ rewrite H2, length_app. lia.
           ++ lia.
        -- specialize (IH (buf ++ t)%list
                          (set_counts r (_line_count r) (_bytes_processed r + chunk_len c))).
           destruct (lines_loop decode rest _ _) as [[ls r'] res].
           destruct IH as (H1 & H2 & H3). simpl in H2, H3.
           split; [|split; [exact H2 | lia]].
           eapply same_but_counts_trans; [|exact H1].
           apply same_but_counts_set, same_but_counts_refl.
      * simpl. split; [apply same_but_counts_set, same_but_counts_refl | lia].
Qed.

Lemma read_lines_counts (decode : chunk -> result str) chunks e r :
  same_but_counts r (snd (_read_lines_from_chunks decode chunks e r)) /\
  _line_count (snd (_read_lines_from_chunks decode chunks e r)) =
    _line_count r +
    Z.of_nat (length (fst (fst (_read_lines_from_chunks decode chunks e r)))) /\
  _bytes_processed r <=
    _bytes_processed (snd (_read_lines_from_chunks decode chunks e r)) <=
    _bytes_processed r + total_len chunks.
Proof.
  unfold _read_lines_from_chunks.
  pose proof (lines_loop_counts decode chunks [] r) as H.
  destruct (lines_loop decode chunks [] r) as [[ls r1] [buf|x]];
    destruct H as (H1 & H2 & H3).
  - destruct e; simpl; try (split; [exact H1 | split; [exact H2 | exact H3]]).
    destruct buf as [|c buf]; simpl; [split; [exact H1 | split; [exact H2 | exact H3]]|].
    split; [|split].
    + unfold _track_line. apply same_but_counts_set. exact H1.
    + rewrite H2, length_app. simpl. lia.
    + exact H3.
  - simpl. split; [exact H1 | split; [exact H2 | exact H3]].
Qed.

(** X3: in every run of the splitter, the line counter grows by exactly the
    number of lines yielded, the byte counter never decreases and grows by
    at most the size of the chunks, and nothing else in the reader
    changes. *)
Theorem X3_counters_follow_the_run :
  forall decode chunks e r,
    same_but_counts r (snd (_read_lines_from_chunks decode chunks e r)) /\
    _line_count (snd (_read_lines_from_chunks decode chunks e r)) =
      _line_count r +
      Z.of_nat (length (fst (fst (_read_lines_from_chunks decode chunks e r)))) /\
    _bytes_processed r <=
      _bytes_processed (snd (_read_lines_from_chunks decode chunks e r)) <=
      _bytes_processed r + total_len chunks.
Proof. exact read_lines_counts. Qed.

Lemma lines_loop_app (decode : chunk -> result str) (a b : list chunk) :
  forall buf r,
    lines_loop decode (a ++ b) buf r =
    match lines_loop decode a buf r with
    | (ls, r1, Ok buf1) =>
      let '(ls2, r2, res) := lines_loop decode b buf1 r1 in ((ls ++ ls2)%list, r2, res)
    | (ls, r1, Raise x) => (ls, r1, Raise x)
    end.
Proof.
  induction a as [|c a IH]; intros buf r.
  - simpl. now destruct (lines_loop decode b buf r) as [[ls r2] res].
  - cbn [app lines_loop]. destruct (chunk_is_empty c); [apply IH|].
    destruct (decode c) as [t|e]; [|reflexivity].
    destruct (has_nl (buf ++ t)); [|apply IH].
    rewrite IH.
    destruct (lines_loop decode a _ _) as [[ls r1] [buf1|x]]; [|reflexivity].
    destruct (lines_loop decode b buf1 r1) as [[ls2 r2] res].
    now rewrite app_assoc.
Qed.

Lemma total_len_app (a b : list chunk) :
  total_len (a ++ b) = total_len a + total_len b.
Proof.
  induction a as [|c a IH]; [reflexivity|].
  cbn [app total_len fold_right]. fold (total_len (a ++ b)) (total_len a). lia.
Qed.

(** X4: when a non-empty chunk does not decode, the run ends with the
    decoder's exception; the lines completed by the chunks before it have
    been yielded, the pending partial line is not, the chunks after it are
    not looked at, and the size of the failing chunk has been counted. *)
Theorem X4_decode_failure_mid_stream :
  forall decode good bad rest e x r text,
    decoded_text decode good = Ok text ->
    chunk_is_empty bad = false -> decode bad = Raise x ->
    exists r',
      _read_lines_from_chunks decode (good ++ bad :: rest) e r =
        (removelast (split_nl text), Failed x, r') /\
      _line_count r' = _line_count r + Z.of_nat (length (removelast (split_nl text))) /\
      _bytes_processed r' = _bytes_processed r + total_len good + chunk_len bad.
Proof.
  intros decode good bad rest e x r text Hd Hne Hbad.
  destruct (lines_loop_ok decode good [] r text eq_refl Hd)
    as (ls & buf' & r1 & Hl & Hs & Hn & Hb).
  unfold _read_lines_from_chunks. rewrite lines_loop_app, Hl.
  cbn [lines_loop]. rewrite Hne, Hbad. simpl in Hs.
  rewrite <- Hs, removelast_last, app_nil_r.
  eexists. split; [reflexivity|]. simpl. split; [exact Hn | lia].
Qed.

Lemma X4_decode_failure_mid_stream_witness :
  exists r',
    _read_lines_from_chunks (chunk_decode utf_8 strict)
      ([Bytes [97; 10; 98]] ++ Bytes [255] :: [Bytes [10]]) Exhausted
      (mkReader None utf_8 strict false false 0 0 None 0%Q None
                (PStr "f.txt") None COMPRESSION_NONE)
    = ([[97]], Failed (UnicodeDecodeError "utf-8" "invalid start byte"), r') /\
    _line_count r' = 1 /\ _bytes_processed r' = 4.
Proof.
  apply (X4_decode_failure_mid_stream (chunk_decode utf_8 strict)
           [Bytes [97; 10; 98]] (Bytes [255]) [Bytes [10]] Exhausted
           (UnicodeDecodeError "utf-8" "invalid start byte")
           (mkReader None utf_8 strict false false 0 0 None 0%Q None
                     (PStr "f.txt") None COMPRESSION_NONE)
           [97; 10; 98]); reflexivity.
Defined.

(** X5: when the chunk source fails after chunks that all decode, the lines
    completed so far have been yielded and the run ends with the source's
    exception; the pending partial line is not flushed. *)
Theorem X5_source_failure_drops_partial_line :
  forall decode chunks x r text,
    decoded_text decode chunks = Ok text ->
    exists r',
      _read_lines_from_chunks decode chunks (Failed x) r =
        (removelast (split_nl text), Failed x, r') /\
      _line_count r' = _line_count r + Z.of_nat (length (removelast (split_nl text))) /\
      _bytes_processed r' = _bytes_processed r + total_len chunks.
Proof.
  intros decode chunks x r text Hd.
  destruct (lines_loop_ok decode chunks [] r text eq_refl Hd)
    as (ls & buf' & r1 & Hl & Hs & Hn & Hb).
  unfold _read_lines_from_chunks. rewrite Hl. simpl in Hs.
  rewrite <- Hs, removelast_last.
  exists r1. now repeat split.
Qed.

Lemma X5_source_failure_drops_partial_line_witness :
  exists r',
    _read_lines_from_chunks (chunk_decode utf_8 replace)
      [Bytes [104; 105]; Bytes [10; 33]] (Failed (OSError 5))
      (mkReader None utf_8 replace false false 0 0 None 0%Q None
                (PStr "f.txt") None COMPRESSION_NONE)
    = ([[104; 105]], Failed (OSError 5), r') /\
    _line_count r' = 1 /\ _bytes_processed r' = 4.
Proof.
  apply (X5_source_failure_drops_partial_line (chunk_decode utf_8 replace)
           [Bytes [104; 105]; Bytes [10; 33]] (OSError 5)
           (mkReader None utf_8 replace false false 0 0 None 0%Q None
                     (PStr "f.txt") None COMPRESSION_NONE)
           [104; 105; 10; 33]); reflexivity.
Defined.

(** X6: when every chunk decodes and the source ends normally, the lines
    yielded are the lines of the text made of the decoded chunks, and they
    give that text back: with a terminator after every line when the text
    is empty or ends with one, with terminators between the lines
    otherwise. *)
Theorem X6_lines_rebuild_the_decoded_chunks :
  forall decode chunks r text,
    decoded_text decode chunks = Ok text ->
    exists r' lines,
      _read_lines_from_chunks decode chunks Exhausted r = (lines, Exhausted, r') /\
      lines = lines_of_text text /\
      ((last (split_nl text) [] = [] /\ with_terminators lines = text) \/
       (last (split_nl text) [] <> [] /\ join_nl lines = text)).
Proof.
  intros decode chunks r text Hd.
  destruct (read_lines_ok decode chunks r text Hd) as (r' & Hl & _).
  exists r', (lines_of_text text). split; [exact Hl|]. split; [reflexivity|].
  apply lines_of_text_roundtrip.
Qed.

Lemma X6_lines_rebuild_the_decoded_chunks_witness :
  exists r' lines,
    _read_lines_from_chunks (chunk_decode utf_8 replace)
      [Bytes [195]; Bytes [169; 10; 98]] Exhausted
      (mkReader None utf_8 replace false false 0 0 None 0%Q None
                (PStr "f.txt") None COMPRESSION_NONE)
    = (lines, Exhausted, r') /\
    lines = lines_of_text [65533; 65533; 10; 98] /\
    ((last (split_nl [65533; 65533; 10; 98]) [] = [] /\
      with_terminators lines = [65533; 65533; 10; 98]) \/
     (last (split_nl [65533; 65533; 10; 98]) [] <> [] /\
      join_nl lines = [65533; 65533; 10; 98])).
Proof.
  apply (X6_lines_rebuild_the_decoded_chunks (chunk_decode utf_8 replace)
           [Bytes [195]; Bytes [169; 10; 98]]
           (mkReader None utf_8 replace false false 0 0 None 0%Q None
                     (PStr "f.txt") None COMPRESSION_NONE)
           [65533; 65533; 10; 98]); reflexivity.
Defined.

(** ** The chunk sources *)

Lemma split_at_length {A : Type} (l : list A) :
  forall n hd tl,
    0 <= n -> split_at n l = (hd, tl) ->
    Z.of_nat (length hd) <= n /\ (tl <> [] -> Z.of_nat (length hd) = n).
Proof.
  induction l as [|x l IH]; intros n hd tl Hn; simpl.
  - intros [= <- <-]. simpl. split; [lia | congruence].
  - destruct (Z.leb_spec n 0).
    + intros [= <- <-]. simpl. split; lia.
    + destruct (split_at (n - 1) l) as [h t] eqn:E. intros [= <- <-].
      destruct (IH (n - 1) h t) as [H1 H2]; [lia | exact E |].
      cbn [length]. split; [lia|]. intros Ht. specialize (H2 Ht). lia.
Qed.

Lemma read_chunks_shape (chunk_size : Z) (fuel : nat) :
  0 < chunk_size ->
  forall f content,
    fo_closed f <> Some true -> fo_fault f = None -> fo_data f = Bytes content ->
    (length content < fuel)%nat ->
    exists pieces f',
      read_chunks fuel chunk_size f = (map Bytes pieces, Exhausted, f') /\
      concat pieces = content /\
      Forall (fun p => 1 <= Z.of_nat (length p) <= chunk_size) pieces /\
      Forall (fun p => Z.of_nat (length p) = chunk_size) (removelast pieces).
Proof.
  intros Hcs. induction fuel as [|fuel IH]; intros f content Hcl Hfl Hda Hlen; [lia|].
  simpl. unfold fo_read. rewrite Hfl, Hda.
  assert (Hclosed : match fo_closed f with Some true => False | _ => True end)
    by (destruct (fo_closed f) as [[|]|]; [congruence | exact I | exact I]).
  unfold take_prefix. destruct (Z.ltb_spec chunk_size 0) as [|_]; [lia|].
  destruct (split_at chunk_size content) as [hd tl] eqn:E.
  pose proof (split_at_app _ _ _ _ E) as Happ.
  destruct (split_at_length content chunk_size hd tl) as [L1 L2]; [lia | exact E |].
  assert (Hgoal :
    exists pieces f',
      (if chunk_is_empty (Bytes hd)
       then ([], Exhausted, set_data f (Bytes tl) None)
       else let '(cs, e, f'') := read_chunks fuel chunk_size (set_data f (Bytes tl) None) in
            (Bytes hd :: cs, e, f''))
      = (map Bytes pieces, Exhausted, f') /\
      concat pieces = content /\
      Forall (fun p => 1 <= Z.of_nat (length p) <= chunk_size) pieces /\
      Forall (fun p => Z.of_nat (length p) = chunk_size) (removelast pieces)).
  { destruct hd as [|x hd].
    - simpl in Happ. subst tl. assert (content = []).
      { destruct content as [|y content]; [reflexivity|]. simpl in E.
        destruct (Z.leb_spec chunk_size 0); [lia|].
        destruct (split_at (chunk_size - 1) content). discriminate. }
      subst content. exists [], (set_data f (Bytes []) None). simpl.
      repeat split; constructor.
    - destruct (IH (set_data f (Bytes tl) None) tl) as (pieces & f' & Hr & Hcat & Hall & Hfull).
      + simpl. destruct (fo_closed f) as [[|]|]; [contradiction | discriminate | discriminate].
      + reflexivity.
      + reflexivity.
      + subst content. rewrite length_app in Hlen. simpl in Hlen. lia.
      + cbn [chunk_is_empty]. rewrite Hr.
        exists ((x :: hd) :: pieces), f'. split; [reflexivity|].
        split; [simpl; now rewrite Hcat|].
        split; [constructor; [cbn [length] in *; lia | exact Hall]|].
        destruct pieces as [|p pieces]; [constructor|].
        change (removelast ((x :: hd) :: p :: pieces))
          with ((x :: hd) :: removelast (p :: pieces)).
        constructor; [|exact Hfull].
        apply L2. simpl in Hcat. inversion Hall as [|? ? Hp _]; subst.
        destruct p; [simpl in Hp; lia | discriminate]. }
  destruct (fo_closed f) as [[|]|]; [contradiction | exact Hgoal | exact Hgoal].
Qed.

(** X7: with a chunk size from 1 up to 128 MiB, the reads of a file that
    does not fail cut its content, in order, into pieces of exactly
    [chunk_size] octets followed by at most one shorter piece; no piece is
    empty, and the sequence ends normally. *)
Theorem X7_chunks_partition_the_content :
  forall chunk_size f content,
    0 < chunk_size -> supported_size chunk_size ->
    clean f -> fo_data f = Bytes content ->
    exists pieces f',
      read_chunks (S (data_len f)) chunk_size f = (map Bytes pieces, Exhausted, f') /\
      concat pieces = content /\
      Forall (fun p => 1 <= Z.of_nat (length p) <= chunk_size) pieces /\
      Forall (fun p => Z.of_nat (length p) = chunk_size) (removelast pieces).
Proof.
  intros chunk_size f content Hcs _ (Hcl & Hfl & _) Hda.
  apply (read_chunks_shape chunk_size (S (data_len f)) Hcs f content Hcl Hfl Hda).
  unfold data_len. rewrite Hda. lia.
Qed.

Lemma X7_chunks_partition_the_content_witness :
  exists pieces f',
    read_chunks 8 3 (bytes_io [1; 2; 3; 4; 5; 6; 7]) = (map Bytes pieces, Exhausted, f') /\
    concat pieces = [1; 2; 3; 4; 5; 6; 7] /\
    Forall (fun p => 1 <= Z.of_nat (length p) <= 3) pieces /\
    Forall (fun p => Z.of_nat (length p) = 3) (removelast pieces).
Proof.
  apply (X7_chunks_partition_the_content 3 (bytes_io [1; 2; 3; 4; 5; 6; 7])
           [1; 2; 3; 4; 5; 6; 7]).
  - lia.
  - unfold supported_size. lia.
  - repeat split. discriminate.
  - reflexivity.
Defined.

(** X8: a [chunk_size] of [-1] given by the caller is used as it is, and
    the first read then takes the whole content: a non-empty file that does
    not fail is delivered as one chunk. *)
Theorem X8_chunk_size_minus_one_reads_all :
  forall r f content,
    user_chunk_size r = Some (-1) ->
    clean f -> fo_data f = Bytes content -> content <> [] ->
    _get_chunk_size r = -1 /\
    exists f', read_chunks (S (data_len f)) (_get_chunk_size r) f
               = ([Bytes content], Exhausted, f').
Proof.
  intros r f content Hu (Hcl & Hfl & _) Hda Hne.
  assert (Hg : _get_chunk_size r = -1).
  { unfold _get_chunk_size. rewrite Hu. reflexivity. }
  split; [exact Hg|]. rewrite Hg.
  unfold data_len. rewrite Hda.
  destruct content as [|x content]; [congruence|].
  cbn [length read_chunks]. unfold fo_read. rewrite Hfl, Hda.
  unfold take_prefix. cbn [Z.ltb Z.compare].
  destruct (fo_closed f) as [[|]|] eqn:Hc; [congruence| |];
    cbn [chunk_is_empty set_data fo_closed fo_fault fo_data]; rewrite ?Hc;
    simpl; eexists; reflexivity.
Qed.

Lemma X8_chunk_size_minus_one_reads_all_witness :
  _get_chunk_size (mkReader (Some (-1)) utf_8 replace false false 0 0 None 0%Q None
                            (PStr "f.txt") None COMPRESSION_NONE) = -1 /\
  exists f',
    read_chunks (S (data_len (bytes_io [1; 2; 3])))
      (_get_chunk_size (mkReader (Some (-1)) utf_8 replace false false 0 0 None 0%Q None
                                 (PStr "f.txt") None COMPRESSION_NONE))
      (bytes_io [1; 2; 3])
    = ([Bytes [1; 2; 3]], Exhausted, f').
Proof.
  apply (X8_chunk_size_minus_one_reads_all
           (mkReader (Some (-1)) utf_8 replace false false 0 0 None 0%Q None
                     (PStr "f.txt") None COMPRESSION_NONE)
           (bytes_io [1; 2; 3]) [1; 2; 3]).
  - reflexivity.
  - repeat split. discriminate.
  - reflexivity.
  - discriminate.
Defined.

Lemma buffered_source_sequential env r chunk_size :
  match _ensure_file_open env r with
  | Ok (r1, f) =>
    fst (_buffered_chunk_iterator env r chunk_size) =
    fst (read_chunks (S (data_len f)) chunk_size f)
  | Raise e => _buffered_chunk_iterator env r chunk_size = ([], Failed e, r)
  end.
Proof.
  destruct (_ensure_file_open env r) as [[r1 f]|e] eqn:Ho.
  - destruct (read_chunks (S (data_len f)) chunk_size f) as [[cs e] f'] eqn:Hr.
    destruct (buffered_iterator_spec env r chunk_size r1 f cs e f' Ho Hr) as (f2 & ->).
    reflexivity.
  - unfold _buffered_chunk_iterator. now rewrite Ho.
Qed.

(** X9: the buffered-threaded source delivers exactly the chunks of the
    successive reads of the file, in order, and ends as they end: it is the
    loop of the compressed path run on the reader's own file object.  When
    the file cannot be opened, it delivers nothing and ends with the
    exception of [open]. *)
Theorem X9_buffered_source_is_sequential :
  forall env r chunk_size,
    match _ensure_file_open env r with
    | Ok (r1, f) =>
      fst (_buffered_chunk_iterator env r chunk_size) =
      fst (read_chunks (S (data_len f)) chunk_size f)
    | Raise e => _buffered_chunk_iterator env r chunk_size = ([], Failed e, r)
    end.
Proof. exact buffered_source_sequential. Qed.

Lemma fo_read_len (n : Z) (f f' : pyfile) (c : chunk) :
  0 <= n -> fo_read n f = (Ok c, f') -> chunk_len c <= n.
Proof.
  intros Hn. unfold fo_read, take_prefix.
  destruct (Z.ltb_spec n 0); [lia|].
  destruct (fo_closed f) as [[|]|]; try discriminate;
    (destruct (fo_fault f) as [[[|k] e]|]; try discriminate);
    (destruct (fo_data f) as [b|t];
     [destruct (split_at n b) as [hd tl] eqn:E
     |destruct (split_at n t) as [hd tl] eqn:E]);
    intros [= <- <-]; simpl;
    apply split_at_length in E; try lia; apply E.
Qed.

Lemma queue_inv_step (chunk_size : Z) (s s' : bstate) :
  queue_inv chunk_size s -> step chunk_size s s' -> queue_inv chunk_size s'.
Proof.
  intros [Hlen Hsz] Hstep. unfold queue_inv.
  destruct Hstep as [s s' H | s s' H]; destruct s as [f pr q y co]; simpl in *.
  - unfold producer_step in H; simpl in H. destruct pr as [|x| |x0]; try discriminate.
    + destruct (fo_read chunk_size f) as [[c|e] f'] eqn:E; injection H as <-; simpl.
      * split; [exact Hlen|]. intros Hn. split; [now apply Hsz|].
        destruct (chunk_is_empty c); simpl; [lia|].
        now apply (fo_read_len chunk_size f f').
      * split; [exact Hlen|]. intros Hn. split; [now apply Hsz | simpl; lia].
    + destruct (Nat.ltb_spec (length q) queue_size); [|discriminate].
      injection H as <-. simpl. split.
      * rewrite length_app. simpl. lia.
      * intros Hn. destruct (Hsz Hn) as [Hq Hx]. split.
        -- apply Forall_app. split; [exact Hq | now constructor].
        -- now destruct x.
  - unfold consumer_step in H; simpl in H. destruct co; try discriminate.
    destruct q as [|[c| |e] q]; try discriminate; injection H as <-; simpl in *;
      (split; [lia|]); intros Hn; destruct (Hsz Hn) as [Hq Hx];
      (split; [now inversion Hq | exact Hx]).
Qed.

Lemma queue_inv_steps (chunk_size : Z) (f : pyfile) (n : nat) (s : bstate) :
  steps chunk_size n (b_init f) s -> queue_inv chunk_size s.
Proof.
  intros H. remember (b_init f) as s0 eqn:E.
  induction H as [s|n s s' s'' H IH Hs].
  - subst. split; simpl; [unfold queue_size; lia|].
    intros _. split; [constructor | exact I].
  - eapply queue_inv_step; [apply IH; exact E | exact Hs].
Qed.

Lemma queue_bytes_bound (chunk_size : Z) (q : list item) :
  Forall (fun x => item_len x <= chunk_size) q ->
  queue_bytes q <= Z.of_nat (length q) * chunk_size.
Proof.
  induction 1 as [|x q Hx Hq IH]; [simpl; lia|].
  cbn [queue_bytes fold_right length]. fold (queue_bytes q). lia.
Qed.

(** X10: under every interleaving of the two threads, the queue never holds
    more than 8 values and, for a positive chunk size, never more than
    [8 * chunk_size] octets: a producer that is ahead waits in [put]. *)
Theorem X10_queue_is_bounded :
  forall chunk_size f n s,
    steps chunk_size n (b_init f) s ->
    (length (b_queue s) <= 8)%nat /\
    (0 < chunk_size -> queue_bytes (b_queue s) <= 8 * chunk_size).
Proof.
  intros chunk_size f n s Hs.
  destruct (queue_inv_steps _ _ _ _ Hs) as [Hlen Hsz].
  split; [exact Hlen|]. intros Hcs.
  destruct Hsz as [Hq _]; [lia|].
  pose proof (queue_bytes_bound _ _ Hq) as Hb.
  unfold queue_size in Hlen. nia.
Qed.

Lemma X10_queue_is_bounded_witness :
  exists s, steps 2 3 (b_init (bytes_io [1; 2; 3; 4; 5])) s /\
            (length (b_queue s) <= 8)%nat /\
            (0 < 2 -> queue_bytes (b_queue s) <= 8 * 2).
Proof.
  eexists. split; [run_threads|].
  apply (X10_queue_is_bounded 2 (bytes_io [1; 2; 3; 4; 5]) 3). run_threads.
Defined.

(** ** The facade in all its runs *)

Lemma set_file_obj_same (r : reader) : set_file_obj r (file_obj r) = r.
Proof. now destruct r. Qed.

Lemma ensure_file_open_shape env r r1 f :
  _ensure_file_open env r = Ok (r1, f) -> r1 = set_file_obj r (Some f).
Proof.
  unfold _ensure_file_open. destruct (file_obj r) as [f0|] eqn:Hf.
  - intros [= <- <-]. rewrite <- Hf. symmetry. apply set_file_obj_same.
  - destruct (file_path r) as [p|n]; [|discriminate].
    destruct (os_open env p); [|discriminate]. now intros [= <- <-].
Qed.



Lemma same_but_counts_fields (r r' : reader) :
  same_but_counts r r' ->
  user_chunk_size r' = user_chunk_size r /\ encoding r' = encoding r /\
  errors r' = errors r /\ debug r' = debug r /\ closed r' = closed r /\
  _start_time r' = _start_time r /\ _total_time r' = _total_time r /\
  _mode r' = _mode r /\ file_path r' = file_path r /\
  file_obj r' = file_obj r /\ _compression_type r' = _compression_type r.
Proof.
  unfold same_but_counts. intros H. rewrite H. simpl. repeat split.
Qed.

Lemma close_keeps_config (r r' : reader) :
  close r = Ok r' ->
  user_chunk_size r' = user_chunk_size r /\ encoding r' = encoding r /\
  errors r' = errors r /\ _start_time r' = _start_time r /\
  _compression_type r' = _compression_type r /\ closed r' = true.
Proof.
  unfold close. destruct (file_obj r) as [f|].
  - destruct (negb _).
    + destruct (fo_close f) as [[u|e] f']; intros [= <-]; simpl; repeat split.
    + intros [= <-]; simpl; repeat split.
  - intros [= <-]; simpl; repeat split.
Qed.






(** X12: when the file cannot be opened (by [open] on the buffered path, by
    the decompression module on the compressed path), the iteration yields
    no line and ends with the exception of the opener; the counters are
    unchanged and the reader is closed. *)
Theorem X12_unopenable_file :
  (forall env t0 t1 r p x,
      _compression_type r = COMPRESSION_NONE -> file_obj r = None ->
      file_path r = PStr p -> os_open env p = Raise x ->
      exists r',
        iterate env t0 t1 r = ([], Failed x, r') /\ closed r' = true /\
        _line_count r' = _line_count r /\ _bytes_processed r' = _bytes_processed r) /\
  (forall env t0 t1 r op p x,
      opener_of (_compression_type r) = Some op ->
      file_path r = PStr p -> open_with env op p = Raise x ->
      exists r',
        iterate env t0 t1 r = ([], Failed x, r') /\ closed r' = true /\
        _line_count r' = _line_count r /\ _bytes_processed r' = _bytes_processed r).
Proof.
  split.
  - intros env t0 t1 r p x Hc Hf Hp Ho.
    unfold iterate. rewrite Hc. cbn [compression_eqb negb].
    unfold _buffered_chunk_iterator, _ensure_file_open.
    cbn [file_obj file_path set_start]. rewrite Hf, Hp, Ho.
    cbn [_read_lines_from_chunks lines_loop].
    destruct (close_spec (set_total_time (set_start r t0 "buffered") (t1 - t0)%Q))
      as (r4 & Hcl & _).
    rewrite Hcl. exists r4. split; [reflexivity|].
    destruct (close_keeps_counts _ _ Hcl) as (K1 & K2 & _).
    destruct (close_keeps_config _ _ Hcl) as (_ & _ & _ & _ & _ & G6).
    now repeat split.
  - intros env t0 t1 r op p x Hop Hp Ho.
    unfold iterate.
    assert (Hne : negb (compression_eqb (_compression_type r) COMPRESSION_NONE) = true)
      by (destruct (_compression_type r); [discriminate | | | |]; reflexivity).
    rewrite Hne. unfold _compressed_chunk_iterator.
    cbn [_compression_type file_path set_start]. rewrite Hop, Hp, Ho.
    cbn [_read_lines_from_chunks lines_loop].
    destruct (close_spec (set_total_time (set_start r t0 "compressed") (t1 - t0)%Q))
      as (r4 & Hcl & _).
    rewrite Hcl. exists r4. split; [reflexivity|].
    destruct (close_keeps_counts _ _ Hcl) as (K1 & K2 & _).
    destruct (close_keeps_config _ _ Hcl) as (_ & _ & _ & _ & _ & G6).
    now repeat split.
Qed.

Lemma X12_unopenable_file_witness :
  exists r',
    iterate no_files 0 1
            (mkReader None utf_8 replace false false 0 0 None 0%Q None
                      (PStr "missing.txt") None COMPRESSION_NONE)
    = ([], Failed (OSError 2), r') /\ closed r' = true /\
    _line_count r' = 0 /\ _bytes_processed r' = 0.
Proof.
  apply (proj1 X12_unopenable_file no_files 0%Q 1%Q
               (mkReader None utf_8 replace false false 0 0 None 0%Q None
                         (PStr "missing.txt") None COMPRESSION_NONE)
               "missing.txt"%string (OSError 2)); reflexivity.
Defined.

(** ** Iterating over a file that does not fail *)

Lemma ascii_decode_ascii (errs : error_policy) (s : bytes) :
  Forall (fun b => b < 128) s -> ascii_decode errs s = Ok s.
Proof.
  induction 1 as [|b s Hb Hs IH]; [reflexivity|].
  simpl. apply Z.ltb_lt in Hb. now rewrite Hb, IH.
Qed.

Lemma octets_kept_decode (enc : codec) (errs : error_policy) (content c : bytes) :
  octets_kept enc content -> incl c content ->
  chunk_decode enc errs (Bytes c) = Ok c.
Proof.
  intros [-> | [[-> H] | [-> H]]] Hin.
  - reflexivity.
  - now apply (chunk_decode_ascii errs content).
  - simpl. apply ascii_decode_ascii.
    apply Forall_forall. intros b Hb. rewrite Forall_forall in H. auto.
Qed.

Lemma iterate_clean env t0 t1 r f content :
  source_handle env r = Ok f -> clean f -> fo_data f = Bytes content ->
  exists pieces f',
    read_chunks (S (data_len f)) (_get_chunk_size r) f = (map Bytes pieces, Exhausted, f') /\
    concat pieces = content /\
    forall text,
      decoded_text (chunk_decode (encoding r) (errors r)) (map Bytes pieces) = Ok text ->
      exists r',
        iterate env t0 t1 r = (lines_of_text text, Exhausted, r') /\
        _line_count r' = _line_count r + Z.of_nat (length (lines_of_text text)) /\
        _bytes_processed r' = _bytes_processed r + Z.of_nat (length content).
Proof.
  intros Hsrc (Hcl & Hfl & Hcr) Hda.
  assert (Hlen : data_len f = length content) by (unfold data_len; now rewrite Hda).
  destruct (read_chunks_clean (_get_chunk_size r) (S (data_len f))
              (get_chunk_size_nonzero r) f content Hcl Hfl Hda)
    as (pieces & f' & Hr & Hcat & Hraise); [lia|].
  exists pieces, f'. split; [exact Hr|]. split; [exact Hcat|]. intros text Htext.
  unfold iterate. unfold source_handle in Hsrc.
  destruct (negb (compression_eqb (_compression_type r) COMPRESSION_NONE)) eqn:Hcomp.
  - unfold _compressed_chunk_iterator. cbn [_compression_type file_path set_start].
    destruct (opener_of (_compression_type r)) as [op|]; [|discriminate].
    destruct (file_path r) as [p|n]; [|discriminate].
    rewrite Hsrc, Hr. unfold fo_close. rewrite Hraise, Hcr.
    destruct (read_lines_ok (chunk_decode (encoding r) (errors r)) (map Bytes pieces)
                (set_start r t0 "compressed") text Htext) as (r2 & Hl & Hn & Hb).
    rewrite Hl.
    destruct (close_spec (set_total_time r2 (t1 - t0)%Q)) as (r4 & Hc & _).
    rewrite Hc. exists r4. split; [reflexivity|].
    destruct (close_keeps_counts _ _ Hc) as (K1 & K2 & _).
    rewrite K1, K2. simpl. rewrite Hn, Hb, total_len_bytes, Hcat. simpl.
    now split.
  - destruct (_ensure_file_open env r) as [[r1 f1]|e] eqn:Ho; [|discriminate].
    injection Hsrc as ->.
    assert (Ho' : _ensure_file_open env (set_start r t0 "buffered")
                  = Ok (set_start r1 t0 "buffered", f))
      by (rewrite ensure_file_open_set_start, Ho; reflexivity).
    destruct (buffered_iterator_spec env _ (_get_chunk_size r) _ f _ _ _ Ho' Hr)
      as (f2 & Hbuf).
    rewrite Hbuf.
    destruct (read_lines_ok (chunk_decode (encoding r) (errors r)) (map Bytes pieces)
                (set_file_obj (set_start r1 t0 "buffered") (Some f2)) text Htext)
      as (r2 & Hl & Hn & Hb).
    rewrite Hl.
    destruct (close_spec (set_total_time r2 (t1 - t0)%Q)) as (r4 & Hc & _).
    rewrite Hc. exists r4. split; [reflexivity|].
    destruct (close_keeps_counts _ _ Hc) as (K1 & K2 & _).
    rewrite K1, K2. simpl. rewrite Hn, Hb, total_len_bytes, Hcat. simpl.
    apply ensure_file_open_shape in Ho. subst r1. simpl. now split.
Qed.

(** X13: over a file that does not fail, read with a codec that gives the
    octets back (latin-1; UTF-8 or ASCII on content below 128), a complete
    iteration yields the lines of the content and ends normally, on the
    buffered and on the compressed path and for every chunk size that
    [read] takes ([-1], or 1 up to 128 MiB); it adds the number of lines
    and the size of the content to the counters. *)
Theorem X13_lines_of_the_content :
  forall env t0 t1 r f content,
    supported_size (_get_chunk_size r) ->
    source_handle env r = Ok f -> clean f -> fo_data f = Bytes content ->
    octets_kept (encoding r) content ->
    exists r',
      iterate env t0 t1 r = (lines_of_text content, Exhausted, r') /\
      _line_count r' = _line_count r + Z.of_nat (length (lines_of_text content)) /\
      _bytes_processed r' = _bytes_processed r + Z.of_nat (length content).
Proof.
  intros env t0 t1 r f content _ Hs Hc Hd Hk.
  destruct (iterate_identity env t0 t1 r f content Hs Hc Hd) as (r' & H1 & H2 & H3 & _).
  - intros c Hin. now apply (octets_kept_decode _ _ content).
  - exists r'. now repeat split.
Qed.

Lemma X13_lines_of_the_content_witness :
  exists r',
    iterate (one_file [97; 10; 10; 32; 98]) 0 1
            (mkReader (Some 2) latin_1 strict false false 0 0 None 0%Q None
                      (PStr "b.txt") None COMPRESSION_NONE)
    = (lines_of_text [97; 10; 10; 32; 98], Exhausted, r') /\
    _line_count r' = 0 + Z.of_nat (length (lines_of_text [97; 10; 10; 32; 98])) /\
    _bytes_processed r' = 0 + Z.of_nat (length [97; 10; 10; 32; 98]).
Proof.
  apply (X13_lines_of_the_content (one_file [97; 10; 10; 32; 98]) 0%Q 1%Q
           (mkReader (Some 2) latin_1 strict false false 0 0 None 0%Q None
                     (PStr "b.txt") None COMPRESSION_NONE)
           (mkFile (Some (PStr "b.txt")) (Some (PStr "rb")) (Some false)
                   (Bytes [97; 10; 10; 32; 98]) None None)).
  - unfold supported_size. vm_compute. split; discriminate.
  - reflexivity.
  - repeat split. discriminate.
  - reflexivity.
  - left. reflexivity.
Defined.

(** X14: two readers over files that do not fail and have the same
    (decompressed) content yield the same lines and end in the same way,
    whatever their formats and paths and whatever their chunk sizes among
    those that [read] takes ([-1], or 1 up to 128 MiB), provided each
    reads with a codec that gives the octets of the content back. *)
Theorem X14_chunk_size_and_format_do_not_matter :
  forall env1 env2 t0 t1 t0' t1' r1 r2 f1 f2 content,
    supported_size (_get_chunk_size r1) -> supported_size (_get_chunk_size r2) ->
    source_handle env1 r1 = Ok f1 -> clean f1 -> fo_data f1 = Bytes content ->
    source_handle env2 r2 = Ok f2 -> clean f2 -> fo_data f2 = Bytes content ->
    octets_kept (encoding r1) content -> octets_kept (encoding r2) content ->
    fst (iterate env1 t0 t1 r1) = fst (iterate env2 t0' t1' r2).
Proof.
  intros env1 env2 t0 t1 t0' t1' r1 r2 f1 f2 content _ _ S1 C1 D1 S2 C2 D2 K1 K2.
  apply (lines_independent_of_chunk_size env1 env2 t0 t1 t0' t1' r1 r2 f1 f2 content);
    try assumption; intros c Hin; now apply (octets_kept_decode _ _ content).
Qed.

Lemma X14_chunk_size_and_format_do_not_matter_witness :
  fst (iterate (one_file [120; 10; 121]) 0 1
               (mkReader (Some 1) utf_8 strict false false 0 0 None 0%Q None
                         (PStr "a.txt") None COMPRESSION_NONE))
  = fst (iterate (one_file [120; 10; 121]) 0 1
                 (mkReader None latin_1 replace false false 0 0 None 0%Q None
                           (PStr "a.txt.bz2") None COMPRESSION_BZIP2)).
Proof.
  apply (X14_chunk_size_and_format_do_not_matter
           (one_file [120; 10; 121]) (one_file [120; 10; 121]) 0%Q 1%Q 0%Q 1%Q _ _
           (mkFile (Some (PStr "a.txt")) (Some (PStr "rb")) (Some false)
                   (Bytes [120; 10; 121]) None None)
           (mkFile (Some (PStr "a.txt.bz2")) (Some (PStr "rb")) (Some false)
                   (Bytes [120; 10; 121]) None None)
           [120; 10; 121]).
  - unfold supported_size. vm_compute. split; discriminate.
  - unfold supported_size. vm_compute. split; discriminate.
  - reflexivity.
  - repeat split. discriminate.
  - reflexivity.
  - reflexivity.
  - repeat split. discriminate.
  - reflexivity.
  - right. left. split; [reflexivity | repeat constructor].
  - left. reflexivity.
Defined.

(** ** The error policies [replace] and [ignore] *)

Lemma utf8_lenient_total (errs : error_policy) (fuel : nat) :
  errs <> strict -> forall s, exists t, Utf8.decode_loop fuel errs s = Ok t.
Proof.
  intros Hs. induction fuel as [|fuel IH]; intros s; [now exists []|].
  destruct s as [|b s]; [now exists []|].
  cbn [Utf8.decode_loop].
  destruct (Utf8.scan_head (b :: s)) as [cp n|n reason].
  - destruct (IH (skipn n (b :: s))) as [t ->]. now eexists.
  - destruct errs; [congruence| |].
    + destruct (IH (skipn n (b :: s))) as [t ->]. now eexists.
    + apply IH.
Qed.

Lemma ascii_lenient_total (errs : error_policy) (s : bytes) :
  errs <> strict -> exists t, ascii_decode errs s = Ok t.
Proof.
  intros Hs. induction s as [|b s [t IH]]; [now exists []|].
  simpl. rewrite IH. destruct (b <? 128); [now eexists|].
  destruct errs; [congruence | now eexists | now eexists].
Qed.

Lemma chunk_decode_lenient (enc : codec) (errs : error_policy) (b : bytes) :
  errs <> strict -> exists t, chunk_decode enc errs (Bytes b) = Ok t.
Proof.
  intros Hs. destruct enc; simpl.
  - apply utf8_lenient_total, Hs.
  - now eexists.
  - apply ascii_lenient_total, Hs.
Qed.

Lemma decoded_text_lenient (enc : codec) (errs : error_policy) (pieces : list bytes) :
  errs <> strict ->
  exists text, decoded_text (chunk_decode enc errs) (map Bytes pieces) = Ok text.
Proof.
  intros Hs. induction pieces as [|p ps [text IH]]; [now exists []|].
  cbn [map decoded_text]. rewrite IH.
  destruct (chunk_is_empty (Bytes p)); [now eexists|].
  destruct (chunk_decode_lenient enc errs p Hs) as [t ->]. now eexists.
Qed.

(** X15: with the UTF-8, latin-1 and ASCII codecs, under the error policies
    [replace] and [ignore], a complete iteration over a binary file that
    does not fail never ends with a decoding error: it ends normally,
    whatever the octets and whatever the chunk size among those that [read]
    takes ([-1], or 1 up to 128 MiB), and has counted every octet of the
    content. *)
Theorem X15_lenient_policies_never_fail :
  forall env t0 t1 r f content,
    supported_size (_get_chunk_size r) ->
    source_handle env r = Ok f -> clean f -> fo_data f = Bytes content ->
    errors r <> strict ->
    exists lines r',
      iterate env t0 t1 r = (lines, Exhausted, r') /\
      _line_count r' = _line_count r + Z.of_nat (length lines) /\
      _bytes_processed r' = _bytes_processed r + Z.of_nat (length content).
Proof.
  intros env t0 t1 r f content _ Hs Hc Hd He.
  destruct (iterate_clean env t0 t1 r f content Hs Hc Hd) as (pieces & f' & _ & _ & H).
  destruct (decoded_text_lenient (encoding r) (errors r) pieces He) as [text Ht].
  destruct (H text Ht) as (r' & H1 & H2 & H3).
  now exists (lines_of_text text), r'.
Qed.

Lemma X15_lenient_policies_never_fail_witness :
  exists lines r',
    iterate (one_file [255; 10; 195]) 0 1
            (mkReader (Some 1) utf_8 replace false false 0 0 None 0%Q None
                      (PStr "bad.txt") None COMPRESSION_NONE)
    = (lines, Exhausted, r') /\
    _line_count r' = 0 + Z.of_nat (length lines) /\
    _bytes_processed r' = 0 + Z.of_nat (length [255; 10; 195]).
Proof.
  apply (X15_lenient_policies_never_fail (one_file [255; 10; 195]) 0%Q 1%Q
           (mkReader (Some 1) utf_8 replace false false 0 0 None 0%Q None
                     (PStr "bad.txt") None COMPRESSION_NONE)
           (mkFile (Some (PStr "bad.txt")) (Some (PStr "rb")) (Some false)
                   (Bytes [255; 10; 195]) None None)).
  - unfold supported_size. vm_compute. split; discriminate.
  - reflexivity.
  - repeat split. discriminate.
  - reflexivity.
  - discriminate.
Defined.

(** ** Iterating a second time *)











(** ** Closing and the scoped use *)






(** ** Statistics without elapsed time *)

(** X20: when the elapsed time is zero or negative, [get_stats] reports 0
    lines per second and 0 MB per second, whatever the counters, and it
    reports the counters themselves as lines and bytes. *)
Theorem X20_no_throughput_without_elapsed_time :
  forall r,
    (_total_time r <= 0)%Q ->
    exists st,
      get_stats r = Ok st /\
      st_lines_per_s st = 0 /\ st_MB_per_s st == 0 /\
      st_lines st = _line_count r /\ st_bytes st = _bytes_processed r.
Proof.
  intros r Ht.
  assert (Hp : is_positive (_total_time r) = false).
  { unfold is_positive. apply negb_false_iff. now apply Qle_bool_iff. }
  unfold get_stats.
  assert (H : Qeq_bool (inject_Z (1024 * 1024)) 0 = false) by reflexivity.
  unfold truediv at 1. rewrite H, Hp.
  eexists. split; [reflexivity|]. simpl. repeat split.
Qed.

Lemma X20_no_throughput_without_elapsed_time_witness :
  exists st,
    get_stats (mkReader None utf_8 replace false true 7 4096 (Some 5%Q) (-1)%Q
                        (Some "buffered"%string) (PStr "a.txt") None COMPRESSION_NONE)
    = Ok st /\
    st_lines_per_s st = 0 /\ st_MB_per_s st == 0 /\ st_lines st = 7 /\ st_bytes st = 4096.
Proof.
  apply (X20_no_throughput_without_elapsed_time
           (mkReader None utf_8 replace false true 7 4096 (Some 5%Q) (-1)%Q
                     (Some "buffered"%string) (PStr "a.txt") None COMPRESSION_NONE)).
  simpl. discriminate.
Defined.

(** ** Format detection *)

(** X21: the detected format depends on the last five characters of the
    path only: what comes before them, directories included, never changes
    it. *)
Theorem X21_detection_reads_the_end_of_the_path :
  forall a s,
    (5 <= String.length s)%nat ->
    _detect_compression_type (PStr (a ++ s)) = _detect_compression_type (PStr s).
Proof.
  intros a s Hs. unfold _detect_compression_type. simpl.
  rewrite !(endswith_app_short a s) by (simpl; lia).
  reflexivity.
Qed.

Lemma X21_detection_reads_the_end_of_the_path_witness :
  _detect_compression_type (PStr ("backup.gz/" ++ "notes.txt")) =
  _detect_compression_type (PStr "notes.txt").
Proof.
  apply (X21_detection_reads_the_end_of_the_path "backup.gz/" "notes.txt").
  simpl. lia.
Defined.

(** ** The file object on the compressed path *)

(** X22: on the compressed path the reader does not read from the file
    object it holds: after the iteration, whatever its outcome, the object
    has the content and the pending fault it had; it has only been closed. *)
Theorem X22_compressed_path_leaves_the_stream_unread :
  forall env t0 t1 r f,
    negb (compression_eqb (_compression_type r) COMPRESSION_NONE) = true ->
    file_obj r = Some f ->
    exists f',
      file_obj (snd (iterate env t0 t1 r)) = Some f' /\
      fo_data f' = fo_data f /\ fo_fault f' = fo_fault f /\
      observed_closed f' = true.
Proof.
  intros env t0 t1 r f Hcomp Hf. unfold iterate. rewrite Hcomp.
  destruct (_compressed_chunk_iterator env _ (_get_chunk_size r)) as [chunks e].
  pose proof (read_lines_counts (chunk_decode (encoding r) (errors r)) chunks e
                (set_start r t0 "compressed")) as (Hsame & _).
  destruct (_read_lines_from_chunks _ chunks e _) as [[lines e'] r2].
  simpl in Hsame.
  destruct (same_but_counts_fields _ _ Hsame) as (_ & _ & _ & _ & _ & _ & _ & _ & _ & F10 & _).
  simpl in F10. rewrite Hf in F10.
  unfold close. cbn [file_obj set_total_time]. rewrite F10.
  unfold observed_closed, fo_close.
  destruct (fo_closed f) as [[|]|] eqn:Hc; cbn [negb].
  - exists f. simpl. rewrite F10, Hc. now repeat split.
  - destruct (fo_close_raises f); simpl; eexists; (split; [reflexivity|]);
      simpl; now repeat split.
  - exists f. simpl. rewrite F10, Hc. now repeat split.
Qed.

Lemma X22_compressed_path_leaves_the_stream_unread_witness :
  exists f',
    file_obj (snd (iterate (one_file [120; 10]) 0 1
                     (mkReader None utf_8 replace false false 0 0 None 0%Q None
                               (PStr "data.gz") (Some gz_named_stream) COMPRESSION_GZIP)))
    = Some f' /\
    fo_data f' = fo_data gz_named_stream /\ fo_fault f' = fo_fault gz_named_stream /\
    observed_closed f' = true.
Proof.
  apply (X22_compressed_path_leaves_the_stream_unread (one_file [120; 10]) 0%Q 1%Q
           (mkReader None utf_8 replace false false 0 0 None 0%Q None
                     (PStr "data.gz") (Some gz_named_stream) COMPRESSION_GZIP)
           gz_named_stream); reflexivity.
Defined.

(** ** UTF-8 content cut between characters *)

Ltac split_conditions :=
  repeat match goal with
         | |- context [if ?c then _ else _] => destruct c
         end.

Lemma scan_head_width (s : bytes) :
  s <> [] ->
  match Utf8.scan_head s with
  | Utf8.Decoded _ n => (1 <= n <= length s)%nat
  | Utf8.Invalid n _ => (1 <= n <= length s)%nat
  end.
Proof.
  intros Hs. destruct s as [|c1 [|c2 [|c3 [|c4 s]]]]; [congruence| | | |];
    unfold Utf8.scan_head, Utf8.unexpected_end, Utf8.bad_start, Utf8.bad_continuation;
    split_conditions; simpl; lia.
Qed.

Lemma decode_loop_fuel (errs : error_policy) (fuel1 : nat) :
  forall fuel2 s, (length s <= fuel1)%nat -> (length s <= fuel2)%nat ->
    Utf8.decode_loop fuel1 errs s = Utf8.decode_loop fuel2 errs s.
Proof.
  induction fuel1 as [|fuel1 IH]; intros fuel2 s H1 H2.
  - destruct s; [|simpl in H1; lia]. now destruct fuel2.
  - destruct s as [|b s]; [now destruct fuel2|].
    destruct fuel2 as [|fuel2]; [simpl in H2; lia|].
    cbn [Utf8.decode_loop].
    pose proof (scan_head_width (b :: s) ltac:(discriminate)) as Hw.
    destruct (Utf8.scan_head (b :: s)) as [cp n|n reason];
      (assert (Hlen : (length (skipn n (b :: s)) < length (b :: s))%nat)
         by (rewrite length_skipn; lia));
      rewrite (IH fuel2 (skipn n (b :: s))) by (simpl in *; lia); reflexivity.
Qed.

(** A character decoded at the head of [a] is decoded in the same way at
    the head of [a ++ b]. *)
Lemma scan_head_app (a b : bytes) (cp : Z) (n : nat) :
  Utf8.scan_head a = Utf8.Decoded cp n ->
  Utf8.scan_head (a ++ b) = Utf8.Decoded cp n /\ (1 <= n <= length a)%nat.
Proof.
  intros H.
  assert (Ha : a <> []) by (destruct a; [discriminate | discriminate]).
  pose proof (scan_head_width a Ha) as Hw. rewrite H in Hw. split; [|exact Hw].
  revert H. clear.
  destruct a as [|c1 [|c2 [|c3 [|c4 a]]]];
    unfold Utf8.scan_head, Utf8.unexpected_end, Utf8.bad_start, Utf8.bad_continuation;
    cbn [app]; split_conditions; intros H; try discriminate H; exact H.
Qed.

Lemma decode_loop_app (errs : error_policy) (b : bytes) (fuel : nat) :
  forall a ta fuel2,
    (length a <= fuel)%nat -> Utf8.decode_loop fuel strict a = Ok ta ->
    (length a + length b <= fuel2)%nat ->
    Utf8.decode_loop fuel2 errs (a ++ b) =
    match Utf8.decode_loop (length b) errs b with
    | Ok tb => Ok (ta ++ tb)%list
    | Raise e => Raise e
    end.
Proof.
  assert (Hnil : forall fuel2, (length b <= fuel2)%nat ->
            Utf8.decode_loop fuel2 errs b =
            match Utf8.decode_loop (length b) errs b with
            | Ok tb => Ok ([] ++ tb)%list
            | Raise e => Raise e
            end).
  { intros fuel2 H. rewrite (decode_loop_fuel errs fuel2 (length b) b) by lia.
    now destruct (Utf8.decode_loop (length b) errs b). }
  induction fuel as [|fuel IH]; intros a ta fuel2 Ha Hd Hf.
  - destruct a; [|simpl in Ha; lia]. injection Hd as <-. apply Hnil. simpl in Hf. lia.
  - destruct a as [|x a].
    + injection Hd as <-. apply Hnil. simpl in Hf. lia.
    + cbn [Utf8.decode_loop] in Hd.
      destruct (Utf8.scan_head (x :: a)) as [cp n|n reason] eqn:Hscan; [|discriminate].
      destruct (Utf8.decode_loop fuel strict (skipn n (x :: a))) as [t|e] eqn:Ht;
        [|discriminate].
      injection Hd as <-.
      destruct (scan_head_app (x :: a) b cp n Hscan) as [Happ Hn].
      destruct fuel2 as [|fuel2]; [simpl in Hf; lia|].
      change ((x :: a) ++ b)%list with (x :: (a ++ b))%list in *.
      cbn [Utf8.decode_loop]. rewrite Happ.
      change (x :: (a ++ b))%list with ((x :: a) ++ b)%list.
      rewrite skipn_app.
      replace (n - length (x :: a))%nat with 0%nat by lia. cbn [skipn].
      rewrite (IH (skipn n (x :: a)) t fuel2).
      * now destruct (Utf8.decode_loop (length b) errs b).
      * rewrite length_skipn. cbn [length] in *. lia.
      * exact Ht.
      * rewrite length_skipn. cbn [length] in *. lia.
Qed.

Lemma decode_strict_any (errs : error_policy) (fuel : nat) :
  forall s t, Utf8.decode_loop fuel strict s = Ok t -> Utf8.decode_loop fuel errs s = Ok t.
Proof.
  induction fuel as [|fuel IH]; intros s t H; [exact H|].
  destruct s as [|b s]; [exact H|].
  cbn [Utf8.decode_loop] in *.
  destruct (Utf8.scan_head (b :: s)) as [cp n|n reason]; [|discriminate].
  destruct (Utf8.decode_loop fuel strict (skipn n (b :: s))) as [u|e] eqn:Hu; [|discriminate].
  now rewrite (IH _ _ Hu).
Qed.

(** When every piece is valid UTF-8 on its own, decoding the pieces one by
    one gives the decoding of the whole. *)
Lemma decoded_text_whole (errs : error_policy) (pieces : list bytes) :
  Forall (fun p => exists t, Utf8.decode strict p = Ok t) pieces ->
  exists text,
    decoded_text (chunk_decode utf_8 errs) (map Bytes pieces) = Ok text /\
    Utf8.decode errs (concat pieces) = Ok text /\
    Utf8.decode strict (concat pieces) = Ok text.
Proof.
  induction 1 as [|p ps [tp Hp] Hps (text & IH1 & IH2 & IH3)].
  - exists []. repeat split.
  - exists (tp ++ text)%list. cbn [map decoded_text concat].
    assert (Hwhole : forall e, Utf8.decode e (concat ps) = Ok text ->
                               Utf8.decode e (p ++ concat ps) = Ok (tp ++ text)%list).
    { intros e He. unfold Utf8.decode in *.
      rewrite (decode_loop_app e (concat ps) (length p) p tp); [now rewrite He | lia | exact Hp |].
      rewrite length_app. lia. }
    split; [|split; [now apply Hwhole | now apply Hwhole]].
    rewrite IH1. cbn [chunk_decode bytes_decode]. unfold Utf8.decode in *.
    rewrite (decode_strict_any errs _ _ _ Hp).
    destruct p as [|x p]; [|reflexivity].
    simpl in Hp. injection Hp as <-. reflexivity.
Qed.

Lemma map_Bytes_inj (l1 l2 : list bytes) : map Bytes l1 = map Bytes l2 -> l1 = l2.
Proof.
  revert l2. induction l1 as [|a l1 IH]; intros [|b l2] H; try discriminate.
  - reflexivity.
  - simpl in H. injection H as -> H. f_equal. now apply IH.
Qed.

(** X23: when the chunk boundaries fall between characters, that is, when
    every chunk read from a file that does not fail is valid UTF-8 on its
    own, a complete iteration with the UTF-8 codec yields the lines of the
    decoded content and ends normally, under every error policy. *)
Theorem X23_utf8_cut_between_characters :
  forall env t0 t1 r f content pieces e f',
    source_handle env r = Ok f -> clean f -> fo_data f = Bytes content ->
    encoding r = utf_8 ->
    read_chunks (S (data_len f)) (_get_chunk_size r) f = (map Bytes pieces, e, f') ->
    Forall (fun p => exists t, Utf8.decode strict p = Ok t) pieces ->
    exists text r',
      Utf8.decode strict content = Ok text /\
      iterate env t0 t1 r = (lines_of_text text, Exhausted, r').
Proof.
  intros env t0 t1 r f content pieces e f' Hs Hc Hd Henc Hr Hvalid.
  destruct (iterate_clean env t0 t1 r f content Hs Hc Hd)
    as (pieces0 & f0 & Hr0 & Hcat & H).
  rewrite Hr in Hr0. injection Hr0 as Hp _ _. apply map_Bytes_inj in Hp. subst pieces0.
  destruct (decoded_text_whole (errors r) pieces Hvalid) as (text & D1 & _ & D3).
  rewrite Henc in H. destruct (H text D1) as (r' & Hi & _).
  exists text, r'. split; [now rewrite <- Hcat | exact Hi].
Qed.

Lemma X23_utf8_cut_between_characters_witness :
  exists text r',
    Utf8.decode strict [195; 169; 10; 195; 188] = Ok text /\
    iterate (one_file [195; 169; 10; 195; 188]) 0 1
            (mkReader (Some 3) utf_8 strict false false 0 0 None 0%Q None
                      (PStr "u.txt") None COMPRESSION_NONE)
    = (lines_of_text text, Exhausted, r').
Proof.
  eapply (X23_utf8_cut_between_characters (one_file [195; 169; 10; 195; 188]) 0%Q 1%Q
            (mkReader (Some 3) utf_8 strict false false 0 0 None 0%Q None
                      (PStr "u.txt") None COMPRESSION_NONE)
            (mkFile (Some (PStr "u.txt")) (Some (PStr "rb")) (Some false)
                    (Bytes [195; 169; 10; 195; 188]) None None)
            [195; 169; 10; 195; 188] [[195; 169; 10]; [195; 188]]).
  - reflexivity.
  - repeat split. discriminate.
  - reflexivity.
  - reflexivity.
  - reflexivity.
  - repeat constructor; eexists; reflexivity.
Defined.
